(** * Lexicon: the response parser, the lookup controller and the
      explanation client of the vocabulary front end.

    Source files: [src/App.tsx] (component [EnglishLearningTool]: the
    [parsedContent] memo, [getWordExplanation], [handleInputChange]) and
    the service module imported as [./services/geminiService]
    ([getGeminiExplanation]).

    JavaScript strings are sequences of UTF-16 code units; every string
    method the parser calls ([split], [trim], [includes], [replace],
    [indexOf], [substring], [RegExp.prototype.test]) works code unit by code
    unit, so a string is modelled as a list of code units. *)

From Stdlib Require Import Strings.String Strings.Ascii.
From Stdlib Require Import List NArith ZArith Bool Lia Permutation.
Import ListNotations.

(** ** JavaScript strings *)

Module JS.

Definition code_unit := N.
Definition jsstring := list code_unit.

Local Open Scope N_scope.

(** Literals are written as UTF-8 text and decoded to UTF-16 code units
    (surrogate pairs above the basic plane). *)
Fixpoint utf16_of_bytes (bs : list N) : jsstring :=
  match bs with
  | [] => []
  | b0 :: t0 =>
    if b0 <? 0x80 then b0 :: utf16_of_bytes t0
    else match t0 with
    | [] => [0xFFFD]
    | b1 :: t1 =>
      if b0 <? 0xE0 then
        ((b0 mod 32) * 64 + b1 mod 64) :: utf16_of_bytes t1
      else match t1 with
      | [] => [0xFFFD]
      | b2 :: t2 =>
        if b0 <? 0xF0 then
          ((b0 mod 16) * 4096 + (b1 mod 64) * 64 + b2 mod 64)
            :: utf16_of_bytes t2
        else match t2 with
        | [] => [0xFFFD]
        | b3 :: t3 =>
          let cp := (b0 mod 8) * 262144 + (b1 mod 64) * 4096
                    + (b2 mod 64) * 64 + b3 mod 64 - 0x10000 in
          (0xD800 + cp / 1024) :: (0xDC00 + cp mod 1024)
            :: utf16_of_bytes t3
        end
      end
    end
  end.

Definition lit (s : string) : jsstring :=
  utf16_of_bytes (map N_of_ascii (list_ascii_of_string s)).

(** Truthiness of a string: [s ? .. : ..], [!s], [filter(s => s)]. *)
Definition truthy (s : jsstring) : bool :=
  match s with [] => false | _ :: _ => true end.

(** [WhiteSpace] and [LineTerminator] code points of ECMAScript, the ones
    [String.prototype.trim] removes. *)
Definition isWhiteSpace (c : code_unit) : bool :=
  (c =? 0x09) || (c =? 0x0A) || (c =? 0x0B) || (c =? 0x0C) || (c =? 0x0D)
  || (c =? 0x20) || (c =? 0xA0) || (c =? 0x1680)
  || ((0x2000 <=? c) && (c <=? 0x200A))
  || (c =? 0x2028) || (c =? 0x2029) || (c =? 0x202F) || (c =? 0x205F)
  || (c =? 0x3000) || (c =? 0xFEFF).

Fixpoint trimStart (s : jsstring) : jsstring :=
  match s with
  | [] => []
  | c :: s' => if isWhiteSpace c then trimStart s' else s
  end.

Definition trimEnd (s : jsstring) : jsstring := rev (trimStart (rev s)).

Definition trim (s : jsstring) : jsstring := trimEnd (trimStart s).

Fixpoint startsWith (s pat : jsstring) : bool :=
  match pat, s with
  | [], _ => true
  | _ :: _, [] => false
  | p :: pat', c :: s' => (c =? p) && startsWith s' pat'
  end.

(** [s.includes(pat)] *)
Fixpoint includes (s pat : jsstring) : bool :=
  startsWith s pat
  || match s with [] => false | _ :: s' => includes s' pat end.

(** Position of the first occurrence of [pat] in [s], if any. *)
Fixpoint search (s pat : jsstring) : option nat :=
  if startsWith s pat then Some O
  else match s with
       | [] => None
       | _ :: s' => option_map S (search s' pat)
       end.

(** [s.indexOf(pat)]: the position of the first occurrence, or -1. *)
Definition indexOf (s pat : jsstring) : Z :=
  match search s pat with
  | Some i => Z.of_nat i
  | None => (-1)%Z
  end.

(** [s.substring(a, b)]: both ends clamped to [0, length], swapped when
    out of order. *)
Definition substring (s : jsstring) (a b : Z) : jsstring :=
  let len := Z.of_nat (length s) in
  let a' := Z.max 0 (Z.min a len) in
  let b' := Z.max 0 (Z.min b len) in
  let lo := Z.min a' b' in
  let hi := Z.max a' b' in
  firstn (Z.to_nat (hi - lo)) (skipn (Z.to_nat lo) s).

(** [s.substring(a)] *)
Definition substring_from (s : jsstring) (a : Z) : jsstring :=
  substring s a (Z.of_nat (length s)).

(** [s.replace(pat, '')] with a string pattern: the first occurrence of
    [pat] is removed, the rest is kept. *)
Fixpoint replace_first (s pat : jsstring) : jsstring :=
  if startsWith s pat then skipn (length pat) s
  else match s with
       | [] => []
       | c :: s' => c :: replace_first s' pat
       end.

(** [s.split(sep)] for a separator of one code unit. *)
Fixpoint split (s : jsstring) (sep : code_unit) : list jsstring :=
  match s with
  | [] => [[]]
  | c :: s' =>
    if c =? sep then [] :: split s' sep
    else match split s' sep with
         | [] => [[c]]
         | l :: ls => (c :: l) :: ls
         end
  end.

(** [\d] of a regular expression without the unicode flag. *)
Definition isDigit (c : code_unit) : bool := (0x30 <=? c) && (c <=? 0x39).

End JS.

Import JS.

(** ** The response parser ([parsedContent], App.tsx) *)

Module Parser.

Local Open Scope N_scope.

(** The markers the scan looks for. *)
Definition PRONUNCIATION : jsstring := lit "PRONUNCIATION:".
Definition SYNONYMS : jsstring := lit "SYNONYMS:".
Definition ANTONYMS : jsstring := lit "ANTONYMS:".
Definition TRANSLATION : jsstring := lit "Перевод:".
Definition IDIOMS : jsstring := lit "ИДИОМЫ:".
Definition SEPARATOR : jsstring := lit " - ".

(** [/^\d\./.test(line)] *)
Definition isExample (line : jsstring) : bool :=
  match line with
  | d :: p :: _ => isDigit d && (p =? 0x2E)
  | _ => false
  end.

(** [s.replace(/\*\*/g, '')]: every non-overlapping occurrence of two
    asterisks, found from the left, is removed. *)
Fixpoint stripEmphasis (s : jsstring) : jsstring :=
  match s with
  | [] => []
  | a :: t =>
    match t with
    | [] => [a]
    | b :: r =>
      if (a =? 0x2A) && (b =? 0x2A) then stripEmphasis r
      else a :: stripEmphasis t
    end
  end.

(** [s.replace(/\[|\]/g, '')] *)
Definition stripBrackets (s : jsstring) : jsstring :=
  filter (fun c => negb ((c =? 0x5B) || (c =? 0x5D))) s.

(** [result.split('\n').filter(line => line.trim())] *)
Definition nonBlankLines (result : jsstring) : list jsstring :=
  filter (fun line => truthy (trim line)) (split result 0x0A).

(** The six variables the [forEach] callback assigns. *)
Record Scan := mkScan {
  pronunciationLine : jsstring;
  exampleLines : list jsstring;
  synonymsLine : jsstring;
  antonymsLine : jsstring;
  translationLine : jsstring;
  idiomsLine : jsstring
}.

Definition scan0 : Scan := mkScan [] [] [] [] [] [].

(** The body of the [forEach] callback. *)
Definition scanLine (st : Scan) (line : jsstring) : Scan :=
  if includes line PRONUNCIATION then
    mkScan line (exampleLines st) (synonymsLine st) (antonymsLine st)
           (translationLine st) (idiomsLine st)
  else if includes line SYNONYMS then
    mkScan (pronunciationLine st) (exampleLines st) line (antonymsLine st)
           (translationLine st) (idiomsLine st)
  else if includes line ANTONYMS then
    mkScan (pronunciationLine st) (exampleLines st) (synonymsLine st) line
           (translationLine st) (idiomsLine st)
  else if includes line TRANSLATION then
    mkScan (pronunciationLine st) (exampleLines st) (synonymsLine st)
           (antonymsLine st) line (idiomsLine st)
  else if includes line IDIOMS then
    mkScan (pronunciationLine st) (exampleLines st) (synonymsLine st)
           (antonymsLine st) (translationLine st) line
  else if isExample line then
    mkScan (pronunciationLine st) (exampleLines st ++ [line])
           (synonymsLine st) (antonymsLine st) (translationLine st)
           (idiomsLine st)
  else st.

(** [lines.forEach(...)] *)
Definition scanLines (lines : list jsstring) : Scan :=
  fold_left scanLine lines scan0.

Record ParsedExplanation := mkParsed {
  wordPart : jsstring;
  explanation : jsstring;
  pronunciation : jsstring;
  synonyms : list jsstring;
  antonyms : list jsstring;
  translation : jsstring;
  idioms : jsstring;
  examples : list jsstring
}.

(** [lines[0] || ''] *)
Definition firstLine (lines : list jsstring) : jsstring :=
  match lines with
  | [] => []
  | l :: _ => if truthy l then l else []
  end.

(** The headword/definition split of the first line. *)
Definition splitWordLine (wordLine word : jsstring) : jsstring * jsstring :=
  let cleanWordLine := stripEmphasis wordLine in
  let splitIndex := indexOf cleanWordLine SEPARATOR in
  if negb (splitIndex =? -1)%Z then
    (trim (substring cleanWordLine 0 splitIndex),
     trim (substring_from cleanWordLine (splitIndex + 3)))
  else
    (word, cleanWordLine).

(** [line.replace(MARKER, '').trim().replace(/\[|\]/g, '').trim()] and the
    re-wrapping of the object literal. *)
Definition pronunciationOf (line : jsstring) : jsstring :=
  let p := trim (stripBrackets (trim (replace_first line PRONUNCIATION))) in
  if truthy p then [0x5B] ++ p ++ [0x5D] else [].

(** [line.replace(MARKER, '').replace(/\*\*/g, '').split(',')
         .map(s => s.trim()).filter(s => s)] *)
Definition wordList (marker line : jsstring) : list jsstring :=
  filter truthy
    (map trim (split (stripEmphasis (replace_first line marker)) 0x2C)).

(** [line.replace(MARKER, '').replace(/\*\*/g, '').trim()] *)
Definition fieldText (marker line : jsstring) : jsstring :=
  trim (stripEmphasis (replace_first line marker)).

(** The parse of a non-empty [result]. *)
Definition parseLines (lines : list jsstring) (word : jsstring)
  : ParsedExplanation :=
  let wordLine := firstLine lines in
  let st := scanLines lines in
  let '(wordPart, explanation) := splitWordLine wordLine word in
  mkParsed wordPart explanation
           (pronunciationOf (pronunciationLine st))
           (wordList SYNONYMS (synonymsLine st))
           (wordList ANTONYMS (antonymsLine st))
           (fieldText TRANSLATION (translationLine st))
           (fieldText IDIOMS (idiomsLine st))
           (exampleLines st).

(** The [useMemo] callback: [null] when [result] is empty. *)
Definition parsedContent (result word : jsstring)
  : option ParsedExplanation :=
  if negb (truthy result) then None
  else Some (parseLines (nonBlankLines result) word).

End Parser.

Import Parser.

(** ** The explanation client ([getGeminiExplanation], geminiService) *)

Module Client.

(** How the awaited call [ai.models.generateContent] settles: it rejects
    with some error, or resolves with a response whose [text] is a string
    or [undefined]. *)
Inductive Generated (E : Type) : Type :=
| Rejected (e : E)
| Response (text : option jsstring).

(** What [getGeminiExplanation] throws: its own
    [new Error("No content received from Gemini")], or the error of the
    remote call, logged and thrown again by the [catch] block. *)
Inductive Thrown (E : Type) : Type :=
| EmptyResponse
| ServiceError (e : E).

Arguments Rejected {E} e.
Arguments Response {E} text.
Arguments EmptyResponse {E}.
Arguments ServiceError {E} e.

Definition newline : string := String (ascii_of_nat 10) EmptyString.

Definition blank : string := EmptyString.

Definition unlines (ls : list string) : string :=
  String.concat newline ls.

Local Open Scope string_scope.

(** The template literal; the two quotation marks around the first
    [${word}] are code unit 34. *)
Definition prompt (word : jsstring) : jsstring :=
 (lit "You are an English language teacher. A student asks about the word or phrase: "
  ++ [34%N] ++ word ++ [34%N]
  ++ lit (unlines
       [ blank; blank;
         "Respond EXACTLY in this format (as plain text, no markdown, no asterisks, no bolding):";
         blank; blank ])
  ++ word
  ++ lit (unlines
       [ " - Clear explanation of the meaning in English.";
         blank;
         "PRONUNCIATION: [phonetic transcription]";
         blank;
         "1. Example sentence showing natural usage";
         "2. Another example in a different context";
         "3. Third example demonstrating the word/phrase";
         blank;
         "SYNONYMS: word1, word2, word3";
         "ANTONYMS: word1, word2, word3";
         blank;
         "Перевод: accurate Russian translation";
         blank;
         "ИДИОМЫ: Related idioms or phrases using this word (if applicable)";
         blank;
         "Important:";
         "- Keep the explanation concise but clear";
         "- Make examples practical and memorable";
         "- Provide accurate synonyms and antonyms";
         "- Include phonetic pronunciation";
         "- Do not use any markdown formatting (no **, no ##)";
         "- Respond only with the format above" ]))%list.

Local Close Scope string_scope.

(** [!text] for [text : string | undefined] *)
Definition noText (text : option jsstring) : bool :=
  match text with
  | None => true
  | Some t => negb (truthy t)
  end.

Section Service.

Variable E : Type.

(** The part of [getGeminiExplanation] that runs once the awaited call has
    settled. *)
Definition settle (g : Generated E) : Thrown E + jsstring :=
  match g with
  | Rejected e => inl (ServiceError e)
  | Response text =>
    if noText text then inl EmptyResponse
    else match text with
         | Some t => inr t
         | None => inl EmptyResponse
         end
  end.

Variable generateContent : jsstring -> Generated E.

Definition getGeminiExplanation (word : jsstring) : Thrown E + jsstring :=
  settle (generateContent (prompt word)).

End Service.

Arguments settle {E} g.
Arguments getGeminiExplanation {E} generateContent word.

End Client.

Import Client.

(** ** The lookup controller ([EnglishLearningTool], App.tsx) *)

Module Controller.

(** The [useState] cells of the component. *)
Record State := mkState {
  word : jsstring;
  result : jsstring;
  isLoading : bool;
  fade : bool;
  error : bool;
  isTyping : bool;
  hasSearched : bool
}.

Definition initial : State := mkState [] [] false false false false false.

(** [getWordExplanation] up to its [await]: the state it leaves and the
    query of the fetch it starts, if it starts one. *)
Definition getWordExplanation (s : State) : State * option jsstring :=
  if negb (truthy (trim (word s))) || isLoading s then (s, None)
  else (mkState (word s) [] true true false (isTyping s) true,
        Some (word s)).

(** The [try] body after the [await], then [finally]. *)
Definition fetchResolved (text : jsstring) (s : State) : State :=
  mkState (word s) text false false (error s) true (hasSearched s).

(** The [catch] block, then [finally]. *)
Definition fetchRejected (s : State) : State :=
  mkState (word s) (result s) false false true (isTyping s) (hasSearched s).

Definition handleInputChange (value : jsstring) (s : State) : State :=
  mkState value (result s) (isLoading s) (fade s) false (isTyping s)
          (hasSearched s).

(** [onComplete] of the typewriter: [setIsTyping(false)]. *)
Definition typingComplete (s : State) : State :=
  mkState (word s) (result s) (isLoading s) (fade s) (error s) false
          (hasSearched s).

(** The memo as the render reads it. *)
Definition currentParsed (s : State) : option ParsedExplanation :=
  parsedContent (result s) (word s).

(** [getWordExplanation] as one render defines it. The function is made
    anew by every render and closes over that render's [word] and
    [isLoading]; the setters write the cells. [render] is the state the
    closure was made in, [s] the cells when it runs; [getWordExplanation s]
    is the case of a render that shows the cells as they are. *)
Definition getWordExplanationIn (render s : State)
  : State * option jsstring :=
  if negb (truthy (trim (word render))) || isLoading render then (s, None)
  else (mkState (word s) [] true true false (isTyping s) true,
        Some (word render)).

(** [l] without its element at position [i]. *)
Definition removeAt {A : Type} (i : nat) (l : list A) : list A :=
  firstn i l ++ skipn (S i) l.

(** The component: the cells as last written, the state of the last
    render (the one on screen, whose handlers run) and the fetches in
    flight (the query of each call of [getGeminiExplanation] that has not
    settled yet). *)
Record System := mkSystem {
  app : State;
  rendered : State;
  outstanding : list jsstring
}.

Definition start : System := mkSystem initial initial [].

Inductive Event (E : Type) : Type :=
| Submit
| InputChange (value : jsstring)
| Settled (i : nat) (g : Generated E)
| TypingComplete
| Commit.

Arguments Submit {E}.
Arguments InputChange {E} value.
Arguments Settled {E} i g.
Arguments TypingComplete {E}.
Arguments Commit {E}.

(** One event of the interaction thread. [Submit] is the Enter key or the
    search button: the [getWordExplanation] of the last render runs.
    [Settled i g] is the fetch at position [i] settling with the remote
    outcome [g] (nothing happens when there is no such fetch). [Commit] is
    React rendering the cells: the writes of a handler or of a continuation
    are committed together, and until then the handlers of the previous
    render are the ones that run. *)
Definition step {E : Type} (sys : System) (ev : Event E) : System :=
  match ev with
  | Submit =>
    let '(s, started) := getWordExplanationIn (rendered sys) (app sys) in
    mkSystem s (rendered sys)
             (outstanding sys
              ++ match started with Some q => [q] | None => [] end)
  | InputChange value =>
    mkSystem (handleInputChange value (app sys)) (rendered sys)
             (outstanding sys)
  | Settled i g =>
    if (i <? length (outstanding sys))%nat then
      match settle g with
      | inr text =>
        mkSystem (fetchResolved text (app sys)) (rendered sys)
                 (removeAt i (outstanding sys))
      | inl _ =>
        mkSystem (fetchRejected (app sys)) (rendered sys)
                 (removeAt i (outstanding sys))
      end
    else sys
  | TypingComplete =>
    mkSystem (typingComplete (app sys)) (rendered sys) (outstanding sys)
  | Commit => mkSystem (app sys) (app sys) (outstanding sys)
  end.

Definition run {E : Type} (sys : System) (evs : list (Event E)) : System :=
  fold_left step evs sys.

(** Every submission of the run is handled by a render that shows the
    loading flag as the cells have it: React has committed since the flag
    last changed. *)
Fixpoint freshSubmits {E : Type} (sys : System) (evs : list (Event E))
  : Prop :=
  match evs with
  | [] => True
  | ev :: rest =>
    match ev with
    | Submit => isLoading (rendered sys) = isLoading (app sys)
    | _ => True
    end
    /\ freshSubmits (step sys ev) rest
  end.

(** The states of the specification, read off the flags the render
    tests. *)
Inductive Phase := Idle | Loading | Ready | Failed.

Definition phase (s : State) : Phase :=
  if isLoading s then Loading
  else if error s then Failed
  else if truthy (result s) then Ready
  else Idle.

(** What a run keeps when every submission is handled by an up-to-date
    render: while loading, exactly one fetch is in flight and no result is
    stored; otherwise no fetch is in flight. *)
Definition consistent (sys : System) : Prop :=
  if isLoading (app sys)
  then (exists q, outstanding sys = [q]) /\ result (app sys) = []
  else outstanding sys = [].

End Controller.

Import Controller.

(** ** Classification of lines, and the wording of the specification *)

Module Classes.

(** The branch of the [forEach] callback a line takes. *)
Inductive LineClass :=
| Pron | Syn | Ant | Trans | Idi | Exm | Unclassified.

Definition classify (line : jsstring) : LineClass :=
  if includes line PRONUNCIATION then Pron
  else if includes line SYNONYMS then Syn
  else if includes line ANTONYMS then Ant
  else if includes line TRANSLATION then Trans
  else if includes line IDIOMS then Idi
  else if isExample line then Exm
  else Unclassified.

Definition sameClass (a b : LineClass) : bool :=
  match a, b with
  | Pron, Pron | Syn, Syn | Ant, Ant | Trans, Trans | Idi, Idi
  | Exm, Exm | Unclassified, Unclassified => true
  | _, _ => false
  end.

Definition hasClass (c : LineClass) (line : jsstring) : bool :=
  sameClass (classify line) c.

(** A line that contains one of the five marker substrings. *)
Definition markerBearing (line : jsstring) : bool :=
  includes line PRONUNCIATION || includes line SYNONYMS
  || includes line ANTONYMS || includes line TRANSLATION
  || includes line IDIOMS.

(** The five classes that feed a marker field. *)
Definition markerClass (c : LineClass) : bool :=
  match c with
  | Pron | Syn | Ant | Trans | Idi => true
  | Exm | Unclassified => false
  end.

(** The variable of the scan that a marker class assigns. *)
Definition fieldLine (c : LineClass) (st : Scan) : jsstring :=
  match c with
  | Pron => pronunciationLine st
  | Syn => synonymsLine st
  | Ant => antonymsLine st
  | Trans => translationLine st
  | Idi => idiomsLine st
  | Exm | Unclassified => []
  end.

(** The marker substring of a marker class. *)
Definition markerOf (c : LineClass) : jsstring :=
  match c with
  | Pron => PRONUNCIATION
  | Syn => SYNONYMS
  | Ant => ANTONYMS
  | Trans => TRANSLATION
  | Idi => IDIOMS
  | Exm | Unclassified => []
  end.

(** The field of the parse that a marker class feeds is the one computed
    from [line]. *)
Definition fieldFrom (c : LineClass) (line : jsstring)
  (p : ParsedExplanation) : Prop :=
  match c with
  | Pron => pronunciation p = pronunciationOf line
  | Syn => synonyms p = wordList SYNONYMS line
  | Ant => antonyms p = wordList ANTONYMS line
  | Trans => translation p = fieldText TRANSLATION line
  | Idi => idioms p = fieldText IDIOMS line
  | Exm | Unclassified => False
  end.

(** The last line of class [c], or the empty string. *)
Definition lastOfClass (c : LineClass) (lines : list jsstring) : jsstring :=
  last (filter (hasClass c) lines) [].

(** [ls'] is [ls] with its marker-bearing lines permuted: the other lines
    are the same, in the same order. *)
Definition markersPermuted (ls ls' : list jsstring) : Prop :=
  Permutation (filter markerBearing ls) (filter markerBearing ls')
  /\ filter (fun l => negb (markerBearing l)) ls
     = filter (fun l => negb (markerBearing l)) ls'.

(** [ls] with its marker-bearing lines replaced, slot by slot, by the
    lines [ms]. *)
Fixpoint refill (ls ms : list jsstring) : list jsstring :=
  match ls with
  | [] => []
  | l :: ls' =>
    if markerBearing l then
      match ms with
      | m :: ms' => m :: refill ls' ms'
      | [] => l :: refill ls' []
      end
    else l :: refill ls' ms
  end.

(** At most one line feeds each marker field. *)
Definition oneLinePerField (ls : list jsstring) : Prop :=
  forall c, markerClass c = true ->
            (length (filter (hasClass c) ls) <= 1)%nat.

End Classes.

Import Classes.

Module Wording.

Local Open Scope N_scope.

(** The example pattern as the specification words it, "a leading integer
    plus period": one or more digits, then a period. *)
Fixpoint afterDigits (s : jsstring) : jsstring :=
  match s with
  | [] => []
  | c :: s' => if isDigit c then afterDigits s' else s
  end.

Definition leadingIntegerPeriod (line : jsstring) : bool :=
  match line with
  | [] => false
  | d :: rest =>
    isDigit d && match afterDigits rest with
                 | p :: _ => p =? 0x2E
                 | [] => false
                 end
  end.

Definition isBracket (c : code_unit) : bool := (c =? 0x5B) || (c =? 0x5D).

Fixpoint dropBrackets (s : jsstring) : jsstring :=
  match s with
  | [] => []
  | c :: s' => if isBracket c then dropBrackets s' else s
  end.

(** "Surrounding bracket characters stripped": the brackets at the two
    ends go, the text between them stays as it is. *)
Definition stripSurroundingBrackets (s : jsstring) : jsstring :=
  rev (dropBrackets (rev (dropBrackets s))).

(** The pronunciation rule as the specification words it. *)
Definition pronunciationWorded (line : jsstring) : jsstring :=
  let p :=
    trim (stripSurroundingBrackets (trim (replace_first line PRONUNCIATION)))
  in if truthy p then [0x5B] ++ p ++ [0x5D] else [].

End Wording.

Import Wording.

(** ** Concrete inputs *)

Module Sample.

Local Open Scope string_scope.

Definition lines (ls : list string) : jsstring := lit (unlines ls).

Definition ephemeral : jsstring := lit "ephemeral".

Definition ephemeralRaw : jsstring :=
  lines [ "ephemeral - lasting for a very short time.";
          "PRONUNCIATION: [ih-FEM-er-uhl]";
          "1. The beauty of cherry blossoms is ephemeral.";
          "2. Fame in showbiz can be ephemeral.";
          "3. Their joy was ephemeral, lasting only a moment.";
          "SYNONYMS: fleeting, transient, momentary";
          "ANTONYMS: permanent, lasting, enduring";
          "Перевод: эфемерный";
          "ИДИОМЫ: none" ].

Definition ephemeralParsed : ParsedExplanation :=
  mkParsed
    (lit "ephemeral")
    (lit "lasting for a very short time.")
    (lit "[ih-FEM-er-uhl]")
    [ lit "fleeting"; lit "transient"; lit "momentary" ]
    [ lit "permanent"; lit "lasting"; lit "enduring" ]
    (lit "эфемерный")
    (lit "none")
    [ lit "1. The beauty of cherry blossoms is ephemeral.";
      lit "2. Fame in showbiz can be ephemeral.";
      lit "3. Their joy was ephemeral, lasting only a moment." ].

(** A text with no marker at all. *)
Definition plainRaw : jsstring := lit "just some words".

(** A numbered sentence that mentions a marker. *)
Definition numberedMarkerLine : jsstring :=
  lit "1. Use SYNONYMS: quick, fast".

Definition numberedMarkerRaw : jsstring :=
  lines [ "quick - fast"; "1. Use SYNONYMS: quick, fast"; "2. Be quick." ].

(** A tenth example. *)
Definition tenthLine : jsstring := lit "10. The tenth example.".

Definition tenthRaw : jsstring :=
  lines [ "quick - fast"; "9. The ninth example."; "10. The tenth example." ].

(** A note that no branch of the scan takes. *)
Definition notedRaw : jsstring :=
  lines [ "quick - fast"; "Note: informal."; "9. The ninth example." ].

Definition unnotedRaw : jsstring :=
  lines [ "quick - fast"; "9. The ninth example." ].

(** Two synonym lines, in either order. *)
Definition twoSynonymsRaw : jsstring :=
  lines [ "quick - fast"; "SYNONYMS: rapid"; "SYNONYMS: swift" ].

Definition twoSynonymsSwappedRaw : jsstring :=
  lines [ "quick - fast"; "SYNONYMS: swift"; "SYNONYMS: rapid" ].

(** The end-to-end example with its marker lines in another order. *)
Definition ephemeralReorderedRaw : jsstring :=
  lines [ "ephemeral - lasting for a very short time.";
          "ИДИОМЫ: none";
          "1. The beauty of cherry blossoms is ephemeral.";
          "2. Fame in showbiz can be ephemeral.";
          "3. Their joy was ephemeral, lasting only a moment.";
          "Перевод: эфемерный";
          "ANTONYMS: permanent, lasting, enduring";
          "SYNONYMS: fleeting, transient, momentary";
          "PRONUNCIATION: [ih-FEM-er-uhl]" ].

(** A first line whose separator appears only once the emphasis markup is
    gone. *)
Definition boldDashRaw : jsstring := lit "quick **-** fast".

(** A first line with a headword in emphasis markup. *)
Definition boldWordRaw : jsstring := lit "**quick** - fast".

(** A transcription with brackets inside. *)
Definition innerBracketLine : jsstring := lit "PRONUNCIATION: [kw[i]k]".

Definition innerBracketRaw : jsstring :=
  lines [ "quick - fast"; "PRONUNCIATION: [kw[i]k]" ].

(** A pronunciation line with nothing in its brackets. *)
Definition emptyBracketRaw : jsstring :=
  lines [ "quick - fast"; "PRONUNCIATION: [ ]" ].

(** A session: type a word, submit it, get the end-to-end text back. *)
Definition typedAndSubmitted : list (Event unit) :=
  [ InputChange ephemeral; Commit; Submit ].

Definition answered : list (Event unit) :=
  [ InputChange ephemeral; Commit; Submit; Commit;
    Settled 0 (Response (Some ephemeralRaw)); Commit;
    TypingComplete; Commit ].


Definition submittedTwice : list (Event unit) :=
  [ InputChange ephemeral; Commit; Submit; Submit ].


(** Of the two fetches, one succeeds and then the other fails. *)
Definition oneSucceedsOneFails : list (Event unit) :=
  submittedTwice
  ++ [ Commit; Settled 0 (Response (Some ephemeralRaw)); Commit;
       Settled 0 (Rejected tt); Commit ].

(** A submission that fails. *)
Definition failed : list (Event unit) :=
  typedAndSubmitted ++ [ Commit; Settled 0 (Response None); Commit ].

(** A numbered sentence that mentions a marker, with a line of that
    marker after it. *)
Definition laterSynonymsRaw : jsstring :=
  lines [ "quick - fast"; "1. Use SYNONYMS: quick, fast"; "2. Be quick.";
          "SYNONYMS: rapid, swift" ].

End Sample.

(** ** What the render shows ([EnglishLearningTool], App.tsx) *)

Module View.

Local Open Scope N_scope.

(** [a === b] on strings *)
Fixpoint strictEq (a b : jsstring) : bool :=
  match a, b with
  | [], [] => true
  | x :: a', y :: b' => (x =? y) && strictEq a' b'
  | _, _ => false
  end.

(** [handleKeyPress]: the state it leaves and the fetch it starts. *)
Definition handleKeyPress (key : jsstring) (s : State)
  : State * option jsstring :=
  if strictEq key (lit "Enter") then getWordExplanation s else (s, None).

(** [disabled={!word || isLoading}] of the search button. *)
Definition searchDisabled (s : State) : bool :=
  negb (truthy (word s)) || isLoading s.

(** [{parsedContent && !error && (...)}] *)
Definition resultShown (s : State) : bool :=
  match currentParsed s with
  | Some _ => negb (error s)
  | None => false
  end.

(** [{error && (...)}] *)
Definition errorShown (s : State) : bool := error s.

(** [{!result && !error && !isLoading && (...)}] *)
Definition hintShown (s : State) : bool :=
  negb (truthy (result s)) && negb (error s) && negb (isLoading s).

(** The text of the spans of a word list: each word, followed by a comma
    when [idx < length - 1]. *)
Fixpoint wordSpans (idx len : nat) (ws : list jsstring) : jsstring :=
  match ws with
  | [] => []
  | w :: ws' =>
    (w ++ (if (idx <? len - 1)%nat then [0x2C] else []))
      ++ wordSpans (S idx) len ws'
  end.

Definition renderWords (ws : list jsstring) : jsstring :=
  wordSpans 0 (length ws) ws.

(** What every state of a run shows, by itself: the fade follows the
    loading flag, while loading the error flag is down and no result is
    stored, and nothing is stored or flagged before the first search. *)
Definition quiet (s : State) : Prop :=
  fade s = isLoading s
  /\ (isLoading s = true -> error s = false /\ result s = [])
  /\ (hasSearched s = false ->
      result s = [] /\ error s = false /\ isLoading s = false
      /\ isTyping s = false).

(** What holds of every state the component can reach: the cells and the
    render are [quiet], a fetch is in flight while loading, the layout is
    pinned once a fetch is in flight, and every fetch in flight was started
    for a query that is not blank. *)
Definition tidy (sys : System) : Prop :=
  quiet (app sys) /\ quiet (rendered sys)
  /\ (isLoading (app sys) = true -> outstanding sys <> [])
  /\ (outstanding sys <> [] -> hasSearched (app sys) = true)
  /\ (forall q, In q (outstanding sys) -> trim q <> []).

(** What a run keeps when every submission is handled by an up-to-date
    render: [consistent], and the error flag is up only with no result
    stored. *)
Definition orderly (sys : System) : Prop :=
  consistent sys /\ (error (app sys) = true -> result (app sys) = []).

End View.

Import View.

(** ** The typewriter ([TypewriterText], App.tsx) *)

Module Typewriter.

(** The two [useState] cells of the component. *)
Record Typing := mkTyping {
  displayText : jsstring;
  currentIndex : nat
}.

(** The effect on [text]: both cells start again. *)
Definition reset : Typing := mkTyping [] 0.

(** What the typing effect does for the committed state. *)
Inductive Effect :=
| Schedule    (* [setTimeout] of the callback, [speed] ms *)
| Complete    (* [onComplete()] *)
| Nothing.

Definition effect (text : jsstring) (hasOnComplete : bool) (t : Typing)
  : Effect :=
  if (currentIndex t <? length text)%nat then Schedule
  else if (currentIndex t =? length text)%nat && hasOnComplete then Complete
  else Nothing.

(** The timeout callback: [prev + text[currentIndex]] and [prev + 1]
    ([text[i]] is [undefined] outside the text, and a string plus
    [undefined] ends in "undefined"). *)
Definition callback (text : jsstring) (t : Typing) : Typing :=
  match nth_error text (currentIndex t) with
  | Some c => mkTyping (displayText t ++ [c]) (S (currentIndex t))
  | None => mkTyping (displayText t ++ lit "undefined") (S (currentIndex t))
  end.

(** One timer period: the scheduled callback fires, if one is scheduled. *)
Definition tick (text : jsstring) (t : Typing) : Typing :=
  match effect text true t with
  | Schedule => callback text t
  | Complete | Nothing => t
  end.

Fixpoint ticks (n : nat) (text : jsstring) (t : Typing) : Typing :=
  match n with
  | O => t
  | S n' => ticks n' text (tick text t)
  end.

End Typewriter.

(** ** Kinds of events *)

Module Trace.

(** The event is a fetch settling. *)
Definition isSettled {E : Type} (ev : Event E) : bool :=
  match ev with
  | Settled _ _ => true
  | Submit | InputChange _ | TypingComplete | Commit => false
  end.

End Trace.

Import Trace.

(** ** Facts about the string operations *)

Section StringFacts.

Lemma truthy_false (s : jsstring) : truthy s = false <-> s = [].
Proof. destruct s; simpl; split; congruence. Qed.

Lemma truthy_true (s : jsstring) : truthy s = true <-> s <> [].
Proof. destruct s; simpl; split; congruence. Qed.

Lemma startsWith_app (s pat : jsstring) :
  startsWith s pat = true <-> exists b, s = pat ++ b.
Proof.
  revert s. induction pat as [|p pat IH]; intros s; simpl.
  - destruct s; (split; [intros _; eexists; reflexivity | reflexivity]).
  - destruct s as [|c s].
    + split; [discriminate | intros [b Hb]; discriminate].
    + simpl. rewrite andb_true_iff, N.eqb_eq, IH. split.
      * intros [-> [b ->]]. now exists b.
      * intros [b Hb]. injection Hb as -> ->. split; [reflexivity | now exists b].
Qed.

Lemma includes_app (s pat : jsstring) :
  includes s pat = true <-> exists a b, s = a ++ pat ++ b.
Proof.
  induction s as [|c s IH]; cbn [includes].
  - rewrite orb_false_r, startsWith_app. split.
    + intros [b Hb]. now exists [], b.
    + intros [a [b Hab]]. symmetry in Hab.
      apply app_eq_nil in Hab as [-> Hab]. apply app_eq_nil in Hab as [-> ->].
      now exists [].
  - rewrite orb_true_iff, IH, startsWith_app. split.
    + intros [[b Hb] | [a [b Hab]]].
      * now exists [], b.
      * exists (c :: a), b. simpl. now f_equal.
    + intros [[|c' a] [b Hab]]; simpl in Hab.
      * left. now exists b.
      * right. injection Hab as -> ->. now exists a, b.
Qed.

Lemma includes_inside (a s b pat : jsstring) :
  includes s pat = true -> includes (a ++ s ++ b) pat = true.
Proof.
  rewrite !includes_app. intros [x [y ->]].
  exists (a ++ x), (y ++ b). now rewrite <- !app_assoc.
Qed.

Lemma split_nonempty (s : jsstring) (sep : code_unit) : split s sep <> [].
Proof.
  destruct s as [|c s]; simpl; [discriminate|].
  destruct (c =? sep)%N; [discriminate|].
  destruct (split s sep); discriminate.
Qed.

Lemma split_app (a b : jsstring) (sep : code_unit) :
  split (a ++ sep :: b) sep = split a sep ++ split b sep.
Proof.
  induction a as [|c a IH]; simpl.
  - now rewrite N.eqb_refl.
  - destruct (c =? sep)%N; [now rewrite IH|].
    rewrite IH. pose proof (split_nonempty a sep) as Hne.
    destruct (split a sep); [contradiction | reflexivity].
Qed.

Lemma split_no_sep (s : jsstring) (sep : code_unit) :
  ~ In sep s -> split s sep = [s].
Proof.
  induction s as [|c s IH]; simpl; intros Hn; [reflexivity|].
  destruct (N.eqb_spec c sep) as [->|_]; [exfalso; now apply Hn; left|].
  rewrite IH; [reflexivity | intros H; apply Hn; now right].
Qed.

Lemma split_head (s : jsstring) (sep : code_unit) l0 ls :
  split s sep = l0 :: ls -> exists b, s = l0 ++ b.
Proof.
  revert l0 ls. induction s as [|c s IH]; simpl; intros l0 ls E.
  - injection E as <- _. now exists [].
  - destruct (c =? sep)%N.
    + injection E as <- _. now exists (c :: s).
    + destruct (split s sep) as [|m ms] eqn:Es.
      * injection E as <- _. now exists s.
      * injection E as <- _. destruct (IH m ms eq_refl) as [b ->].
        now exists b.
Qed.

(** A piece of a split is a contiguous part of the text. *)
Lemma split_piece (s : jsstring) (sep : code_unit) (l : jsstring) :
  In l (split s sep) -> exists a b, s = a ++ l ++ b.
Proof.
  revert l. induction s as [|c s IH]; simpl; intros l Hl.
  - destruct Hl as [<-|[]]. now exists [], [].
  - destruct (c =? sep)%N.
    + destruct Hl as [<-|Hl].
      * now exists [], (c :: s).
      * destruct (IH l Hl) as [a [b ->]]. now exists (c :: a), b.
    + destruct (split s sep) as [|m ms] eqn:Es.
      * destruct Hl as [<-|[]]. now exists [], s.
      * destruct Hl as [<-|Hl].
        -- destruct (split_head _ _ _ _ Es) as [b ->]. now exists [], b.
        -- destruct (IH l (or_intror Hl)) as [a [b ->]].
           now exists (c :: a), b.
Qed.

Lemma search_none (s pat : jsstring) :
  search s pat = None <-> includes s pat = false.
Proof.
  induction s as [|c s IH]; cbn [search includes].
  - destruct (startsWith [] pat); simpl; split; congruence.
  - destruct (startsWith (c :: s) pat); simpl.
    + split; discriminate.
    + rewrite <- IH. destruct (search s pat); simpl; split; congruence.
Qed.

(** [search] finds the leftmost occurrence. *)
Lemma search_some (s pat : jsstring) (i : nat) :
  search s pat = Some i ->
  exists a b,
    s = a ++ pat ++ b /\ length a = i
    /\ (forall a' b', s = a' ++ pat ++ b' -> (i <= length a')%nat).
Proof.
  revert i. induction s as [|c s IH]; intros i; cbn [search].
  - destruct (startsWith [] pat) eqn:E; [|discriminate].
    intros H. injection H as <-. apply startsWith_app in E as [b Hb].
    exists [], b. repeat split; [exact Hb | intros; lia].
  - destruct (startsWith (c :: s) pat) eqn:E.
    + intros H. injection H as <-. apply startsWith_app in E as [b Hb].
      exists [], b. repeat split; [exact Hb | intros; lia].
    + destruct (search s pat) as [j|] eqn:Ej; [|discriminate].
      simpl. intros H. injection H as <-.
      destruct (IH j eq_refl) as (a & b & -> & Hlen & Hmin).
      exists (c :: a), b. repeat split; [simpl; now rewrite Hlen|].
      intros a' b' Hab. destruct a' as [|c' a']; simpl in Hab.
      * assert (startsWith (c :: a ++ pat ++ b) pat = true)
          by (apply startsWith_app; now exists b').
        congruence.
      * injection Hab as _ Hab. apply Hmin in Hab. simpl. lia.
Qed.

Lemma substring_prefix (a b : jsstring) :
  substring (a ++ b) 0 (Z.of_nat (length a)) = a.
Proof.
  unfold substring. rewrite length_app.
  replace (Z.max 0 (Z.min 0 _)) with 0%Z by lia.
  replace (Z.max 0 (Z.min (Z.of_nat (length a)) _))
    with (Z.of_nat (length a)) by lia.
  replace (Z.min 0 (Z.of_nat (length a))) with 0%Z by lia.
  replace (Z.max 0 (Z.of_nat (length a))) with (Z.of_nat (length a)) by lia.
  rewrite Z.sub_0_r, Nat2Z.id. simpl.
  rewrite firstn_app, firstn_all, Nat.sub_diag. simpl. apply app_nil_r.
Qed.

Lemma substring_from_suffix (a b : jsstring) (k : Z) :
  k = Z.of_nat (length a) -> substring_from (a ++ b) k = b.
Proof.
  intros ->. unfold substring_from, substring. rewrite length_app.
  set (la := length a). set (lb := length b).
  replace (Z.max 0 (Z.min (Z.of_nat la) (Z.of_nat (la + lb))))
    with (Z.of_nat la) by lia.
  replace (Z.max 0 (Z.min (Z.of_nat (la + lb)) (Z.of_nat (la + lb))))
    with (Z.of_nat (la + lb)) by lia.
  replace (Z.min (Z.of_nat la) (Z.of_nat (la + lb)))
    with (Z.of_nat la) by lia.
  replace (Z.max (Z.of_nat la) (Z.of_nat (la + lb)))
    with (Z.of_nat (la + lb)) by lia.
  replace (Z.to_nat (Z.of_nat (la + lb) - Z.of_nat la)) with lb by lia.
  rewrite Nat2Z.id. subst la lb.
  rewrite skipn_app, skipn_all, Nat.sub_diag. simpl. apply firstn_all.
Qed.

Lemma In_trimStart (c : code_unit) (s : jsstring) :
  In c (trimStart s) -> In c s.
Proof.
  induction s as [|d s IH]; simpl; [tauto|].
  destruct (isWhiteSpace d); [intros H; right; now apply IH | tauto].
Qed.

Lemma In_trim (c : code_unit) (s : jsstring) : In c (trim s) -> In c s.
Proof.
  unfold trim, trimEnd. intros H. apply In_rev in H.
  apply In_trimStart in H. apply In_rev in H. now apply In_trimStart in H.
Qed.

Lemma replace_first_prefix (pat rest : jsstring) :
  replace_first (pat ++ rest) pat = rest.
Proof.
  assert (E : startsWith (pat ++ rest) pat = true)
    by (apply startsWith_app; now exists rest).
  destruct (pat ++ rest) as [|c s] eqn:Es; cbn [replace_first]; rewrite E.
  - destruct pat; [|discriminate]. simpl in *. now subst.
  - rewrite <- Es. rewrite skipn_app, skipn_all, Nat.sub_diag. reflexivity.
Qed.

End StringFacts.

(** ** Facts about the scan *)

Section ScanFacts.

Lemma last_cons (A : Type) (a d : A) (l : list A) :
  last (a :: l) d = last l a.
Proof.
  revert a d. induction l as [|b l IH]; intros a d; [reflexivity|].
  change (last (a :: b :: l) d) with (last (b :: l) d).
  now rewrite !IH.
Qed.

(** The callback, by the class of the line. *)
Lemma scanLine_classify (st : Scan) (line : jsstring) :
  scanLine st line =
  match classify line with
  | Pron => mkScan line (exampleLines st) (synonymsLine st)
                   (antonymsLine st) (translationLine st) (idiomsLine st)
  | Syn => mkScan (pronunciationLine st) (exampleLines st) line
                  (antonymsLine st) (translationLine st) (idiomsLine st)
  | Ant => mkScan (pronunciationLine st) (exampleLines st) (synonymsLine st)
                  line (translationLine st) (idiomsLine st)
  | Trans => mkScan (pronunciationLine st) (exampleLines st)
                    (synonymsLine st) (antonymsLine st) line (idiomsLine st)
  | Idi => mkScan (pronunciationLine st) (exampleLines st) (synonymsLine st)
                  (antonymsLine st) (translationLine st) line
  | Exm => mkScan (pronunciationLine st) (exampleLines st ++ [line])
                  (synonymsLine st) (antonymsLine st) (translationLine st)
                  (idiomsLine st)
  | Unclassified => st
  end.
Proof.
  unfold scanLine, classify.
  destruct (includes line PRONUNCIATION); [reflexivity|].
  destruct (includes line SYNONYMS); [reflexivity|].
  destruct (includes line ANTONYMS); [reflexivity|].
  destruct (includes line TRANSLATION); [reflexivity|].
  destruct (includes line IDIOMS); [reflexivity|].
  destruct (isExample line); reflexivity.
Qed.

Lemma fold_scanLine (lines : list jsstring) (st : Scan) :
  fold_left scanLine lines st =
  mkScan (last (filter (hasClass Pron) lines) (pronunciationLine st))
         (exampleLines st ++ filter (hasClass Exm) lines)
         (last (filter (hasClass Syn) lines) (synonymsLine st))
         (last (filter (hasClass Ant) lines) (antonymsLine st))
         (last (filter (hasClass Trans) lines) (translationLine st))
         (last (filter (hasClass Idi) lines) (idiomsLine st)).
Proof.
  revert st. induction lines as [|l lines IH]; intros st.
  - simpl. rewrite app_nil_r. now destruct st.
  - cbn [fold_left filter]. rewrite IH, scanLine_classify. unfold hasClass.
    destruct (classify l); cbn [sameClass]; rewrite ?last_cons;
      cbn [pronunciationLine exampleLines synonymsLine antonymsLine
           translationLine idiomsLine];
      rewrite <- ?app_assoc; reflexivity.
Qed.

(** What the scan leaves in its six variables. *)
Lemma scanLines_spec (lines : list jsstring) :
  scanLines lines =
  mkScan (lastOfClass Pron lines) (filter (hasClass Exm) lines)
         (lastOfClass Syn lines) (lastOfClass Ant lines)
         (lastOfClass Trans lines) (lastOfClass Idi lines).
Proof. unfold scanLines. now rewrite fold_scanLine. Qed.

Lemma fieldLine_scanLines (c : LineClass) (lines : list jsstring) :
  markerClass c = true -> fieldLine c (scanLines lines) = lastOfClass c lines.
Proof. rewrite scanLines_spec. destruct c; simpl; congruence. Qed.

Lemma markerBearing_classify (line : jsstring) :
  markerBearing line = markerClass (classify line).
Proof.
  unfold markerBearing, classify.
  destruct (includes line PRONUNCIATION); [reflexivity|].
  destruct (includes line SYNONYMS); [reflexivity|].
  destruct (includes line ANTONYMS); [reflexivity|].
  destruct (includes line TRANSLATION); [reflexivity|].
  destruct (includes line IDIOMS); [reflexivity|].
  destruct (isExample line); reflexivity.
Qed.

Lemma hasClass_Exm (line : jsstring) :
  hasClass Exm line = negb (markerBearing line) && isExample line.
Proof.
  unfold hasClass, markerBearing, classify.
  destruct (includes line PRONUNCIATION); [reflexivity|].
  destruct (includes line SYNONYMS); [reflexivity|].
  destruct (includes line ANTONYMS); [reflexivity|].
  destruct (includes line TRANSLATION); [reflexivity|].
  destruct (includes line IDIOMS); [reflexivity|].
  destruct (isExample line); reflexivity.
Qed.

Lemma sameClass_eq (a b : LineClass) : sameClass a b = true <-> a = b.
Proof. destruct a, b; simpl; split; congruence. Qed.

Lemma hasClass_marker (c : LineClass) (line : jsstring) :
  markerClass c = true -> hasClass c line = true -> markerBearing line = true.
Proof.
  intros Hc H. apply sameClass_eq in H.
  now rewrite markerBearing_classify, H.
Qed.

Lemma filter_filter_implied (A : Type) (f g : A -> bool) (l : list A) :
  (forall x, f x = true -> g x = true) ->
  filter f (filter g l) = filter f l.
Proof.
  intros Hfg. induction l as [|x l IH]; simpl; [reflexivity|].
  destruct (g x) eqn:Eg; simpl.
  - now rewrite IH.
  - destruct (f x) eqn:Ef; [|exact IH].
    apply Hfg in Ef. congruence.
Qed.

Lemma Permutation_filter_pred (A : Type) (f : A -> bool) (l l' : list A) :
  Permutation l l' -> Permutation (filter f l) (filter f l').
Proof.
  induction 1 as [|x l l' _ IH|x y l|l l' l'' _ IH1 _ IH2]; simpl.
  - constructor.
  - destruct (f x); [now constructor | exact IH].
  - destruct (f x), (f y); try apply Permutation_refl. apply perm_swap.
  - now transitivity (filter f l').
Qed.

Lemma Permutation_short (A : Type) (l l' : list A) :
  Permutation l l' -> (length l <= 1)%nat -> l = l'.
Proof.
  intros HP Hlen. destruct l as [|x [|y l]]; simpl in Hlen; [| |lia].
  - now apply Permutation_nil in HP.
  - now apply Permutation_length_1_inv in HP.
Qed.

(** Permuting the marker-bearing lines leaves the last line of every
    marker class in place, when each class has at most one line. *)
Lemma lastOfClass_permuted (c : LineClass) (ls ls' : list jsstring) :
  markerClass c = true ->
  markersPermuted ls ls' ->
  (length (filter (hasClass c) ls) <= 1)%nat ->
  lastOfClass c ls = lastOfClass c ls'.
Proof.
  intros Hc [HP _] Hlen. unfold lastOfClass.
  rewrite <- (filter_filter_implied _ (hasClass c) markerBearing ls)
    by (intros x; now apply hasClass_marker).
  rewrite <- (filter_filter_implied _ (hasClass c) markerBearing ls')
    by (intros x; now apply hasClass_marker).
  f_equal. apply Permutation_short.
  - now apply Permutation_filter_pred.
  - rewrite filter_filter_implied by (intros x; now apply hasClass_marker).
    exact Hlen.
Qed.

Lemma examples_permuted (ls ls' : list jsstring) :
  markersPermuted ls ls' ->
  filter (hasClass Exm) ls = filter (hasClass Exm) ls'.
Proof.
  intros [_ HE].
  assert (Himp : forall x, hasClass Exm x = true ->
                           negb (markerBearing x) = true).
  { intros x Hx. rewrite hasClass_Exm in Hx.
    now apply andb_true_iff in Hx as [Hx _]. }
  rewrite <- (filter_filter_implied _ _ _ ls Himp).
  rewrite <- (filter_filter_implied _ _ _ ls' Himp).
  now rewrite HE.
Qed.

End ScanFacts.

(** ** Facts about the parse *)

Section ParseFacts.

Lemma parsedContent_some (raw query : jsstring) (p : ParsedExplanation) :
  parsedContent raw query = Some p <->
  raw <> [] /\ p = parseLines (nonBlankLines raw) query.
Proof.
  unfold parsedContent. destruct raw as [|c raw]; simpl.
  - split; [discriminate | intros [H _]; congruence].
  - split.
    + intros H. injection H as <-. split; [discriminate | reflexivity].
    + intros [_ ->]. reflexivity.
Qed.

Lemma parseLines_fields (ls : list jsstring) (query : jsstring) :
  let p := parseLines ls query in
  pronunciation p = pronunciationOf (lastOfClass Pron ls)
  /\ synonyms p = wordList SYNONYMS (lastOfClass Syn ls)
  /\ antonyms p = wordList ANTONYMS (lastOfClass Ant ls)
  /\ translation p = fieldText TRANSLATION (lastOfClass Trans ls)
  /\ idioms p = fieldText IDIOMS (lastOfClass Idi ls)
  /\ examples p = filter (hasClass Exm) ls.
Proof.
  unfold parseLines. rewrite scanLines_spec.
  destruct (splitWordLine (firstLine ls) query). simpl. tauto.
Qed.

Lemma parseLines_word (ls : list jsstring) (query : jsstring) :
  (wordPart (parseLines ls query), explanation (parseLines ls query))
  = splitWordLine (firstLine ls) query.
Proof.
  unfold parseLines. now destruct (splitWordLine (firstLine ls) query).
Qed.

Lemma fieldFrom_parseLines (c : LineClass) (ls : list jsstring)
  (query : jsstring) :
  markerClass c = true ->
  fieldFrom c (lastOfClass c ls) (parseLines ls query).
Proof.
  intros Hc. pose proof (parseLines_fields ls query) as H. simpl in H.
  destruct c; simpl; try discriminate; tauto.
Qed.

Lemma hasClass_includes (c : LineClass) (line : jsstring) :
  markerClass c = true -> hasClass c line = true ->
  includes line (markerOf c) = true.
Proof.
  intros Hc H. apply sameClass_eq in H. subst c. revert Hc.
  unfold classify.
  destruct (includes line PRONUNCIATION) eqn:E1; [intros _; exact E1|].
  destruct (includes line SYNONYMS) eqn:E2; [intros _; exact E2|].
  destruct (includes line ANTONYMS) eqn:E3; [intros _; exact E3|].
  destruct (includes line TRANSLATION) eqn:E4; [intros _; exact E4|].
  destruct (includes line IDIOMS) eqn:E5; [intros _; exact E5|].
  destruct (isExample line); discriminate.
Qed.

Lemma nonBlankLines_piece (raw l : jsstring) :
  In l (nonBlankLines raw) -> exists a b, raw = a ++ l ++ b.
Proof.
  unfold nonBlankLines. intros H. apply filter_In in H as [H _].
  exact (split_piece _ _ _ H).
Qed.

Lemma filter_none (A : Type) (f : A -> bool) (l : list A) :
  (forall x, In x l -> f x = false) -> filter f l = [].
Proof.
  induction l as [|x l IH]; intros H; simpl; [reflexivity|].
  rewrite (H x (or_introl eq_refl)). apply IH. intros y Hy. apply H. now right.
Qed.

(** A marker that the text does not contain feeds no line to its field. *)
Lemma lastOfClass_absent (c : LineClass) (raw : jsstring) :
  markerClass c = true -> includes raw (markerOf c) = false ->
  lastOfClass c (nonBlankLines raw) = [].
Proof.
  intros Hc Habs. unfold lastOfClass. rewrite filter_none; [reflexivity|].
  intros l Hl. destruct (hasClass c l) eqn:E; [|reflexivity].
  apply (hasClass_includes _ _ Hc) in E.
  destruct (nonBlankLines_piece _ _ Hl) as [a [b ->]].
  apply (includes_inside a _ b) in E. congruence.
Qed.

(** A line that no branch takes leaves the scan as it was. *)
Lemma scanLines_skip (pre post : list jsstring) (x : jsstring) :
  classify x = Unclassified ->
  scanLines (pre ++ x :: post) = scanLines (pre ++ post).
Proof.
  intros Hx. unfold scanLines. rewrite !fold_left_app. cbn [fold_left].
  now rewrite scanLine_classify, Hx.
Qed.

Lemma lastOfClass_here (c : LineClass) (pre post : list jsstring)
  (line : jsstring) :
  classify line = c ->
  (forall l, In l post -> classify l <> c) ->
  lastOfClass c (pre ++ line :: post) = line.
Proof.
  intros Hc Hpost. unfold lastOfClass. rewrite filter_app. cbn [filter].
  replace (hasClass c line) with true
    by (symmetry; now apply sameClass_eq).
  rewrite (filter_none _ (hasClass c) post).
  - apply last_last.
  - intros l Hl. destruct (hasClass c l) eqn:E; [|reflexivity].
    apply sameClass_eq in E. now apply Hpost in Hl.
Qed.

Lemma nonBlankLines_app (a b : jsstring) :
  nonBlankLines (a ++ 0x0A%N :: b) = nonBlankLines a ++ nonBlankLines b.
Proof. unfold nonBlankLines. now rewrite split_app, filter_app. Qed.

Lemma firstLine_app (ls ls' : list jsstring) :
  ls <> [] -> firstLine (ls ++ ls') = firstLine ls.
Proof. destruct ls; [contradiction | reflexivity]. Qed.

(** A line between two newlines that no branch takes can be cut out of
    the text, as long as a non-blank line comes before it. *)
Lemma parseLines_cut (a x b query : jsstring) :
  ~ In 0x0A%N x -> classify x = Unclassified -> nonBlankLines a <> [] ->
  parseLines (nonBlankLines (a ++ 0x0A%N :: x ++ 0x0A%N :: b)) query
  = parseLines (nonBlankLines (a ++ 0x0A%N :: b)) query.
Proof.
  intros Hnl Hx Ha. rewrite !nonBlankLines_app.
  unfold parseLines. rewrite !firstLine_app by exact Ha.
  replace (scanLines (nonBlankLines a ++ nonBlankLines x ++ nonBlankLines b))
    with (scanLines (nonBlankLines a ++ nonBlankLines b)); [reflexivity|].
  assert (Hlx : nonBlankLines x = if truthy (trim x) then [x] else []).
  { unfold nonBlankLines. now rewrite (split_no_sep _ _ Hnl). }
  rewrite Hlx. destruct (truthy (trim x)); [|reflexivity].
  symmetry. now apply scanLines_skip.
Qed.

(** Refilling the marker slots with a permutation of the marker-bearing
    lines is a permutation of the marker-bearing lines in the sense of
    [markersPermuted]. *)
Lemma refill_filters (ls ms : list jsstring) :
  Forall (fun m => markerBearing m = true) ms ->
  length ms = length (filter markerBearing ls) ->
  filter markerBearing (refill ls ms) = ms
  /\ filter (fun l => negb (markerBearing l)) (refill ls ms)
     = filter (fun l => negb (markerBearing l)) ls.
Proof.
  revert ms. induction ls as [|l ls IH]; intros ms Hms Hlen; simpl in *.
  - destruct ms; [now split | discriminate].
  - destruct (markerBearing l) eqn:El; simpl in *.
    + destruct ms as [|m ms]; [discriminate|].
      inversion Hms as [|? ? Hm Hms']; subst.
      injection Hlen as Hlen. destruct (IH ms Hms' Hlen) as [H1 H2].
      simpl. rewrite Hm. simpl. now rewrite H1, H2.
    + destruct (IH ms Hms Hlen) as [H1 H2].
      rewrite El. simpl. now rewrite H1, H2.
Qed.

Lemma refill_permuted (ls ms : list jsstring) :
  Permutation (filter markerBearing ls) ms ->
  markersPermuted ls (refill ls ms).
Proof.
  intros HP.
  assert (Hms : Forall (fun m => markerBearing m = true) ms).
  { apply Forall_forall. intros m Hm.
    apply (Permutation_in _ (Permutation_sym HP)) in Hm.
    now apply filter_In in Hm as [_ Hm]. }
  destruct (refill_filters ls ms Hms) as [H1 H2].
  { symmetry. now apply Permutation_length. }
  split; [now rewrite H1 | now rewrite H2].
Qed.

End ParseFacts.

(** ** The end-to-end example *)

(** C2: on the query "ephemeral" and the nine-line text of the end-to-end
    example, the parse is exactly the expected record: headword, definition,
    bracketed pronunciation, the three numbered lines in order, the three
    synonyms, the three antonyms, the translation and the idioms text. *)
Theorem C2_ephemeral_example :
  parsedContent Sample.ephemeralRaw Sample.ephemeral
  = Some Sample.ephemeralParsed.
Proof. vm_compute. reflexivity. Qed.

(** ** Totality of the parser *)

(** C1, as the code has it: for every non-empty text and every query the
    parse is a record with all eight fields; a marker field whose marker
    the text does not contain is the empty string or the empty sequence,
    the examples are empty when no line matches the example pattern, and a
    text of blank lines only gives the query as headword and an empty
    definition. *)
Theorem C1_parse_total_on_nonempty (raw query : jsstring) :
  raw <> [] ->
  exists p,
    parsedContent raw query = Some p
    /\ (includes raw PRONUNCIATION = false -> pronunciation p = [])
    /\ (includes raw SYNONYMS = false -> synonyms p = [])
    /\ (includes raw ANTONYMS = false -> antonyms p = [])
    /\ (includes raw TRANSLATION = false -> translation p = [])
    /\ (includes raw IDIOMS = false -> idioms p = [])
    /\ ((forall l, In l (nonBlankLines raw) -> isExample l = false) ->
        examples p = [])
    /\ (nonBlankLines raw = [] -> wordPart p = query /\ explanation p = []).
Proof.
  intros Hraw. exists (parseLines (nonBlankLines raw) query).
  pose proof (parseLines_fields (nonBlankLines raw) query) as F.
  cbv zeta in F. destruct F as (Fp & Fs & Fa & Ft & Fi & Fe).
  split; [now apply parsedContent_some|].
  repeat split.
  - intros H. now rewrite Fp, (lastOfClass_absent Pron).
  - intros H. now rewrite Fs, (lastOfClass_absent Syn).
  - intros H. now rewrite Fa, (lastOfClass_absent Ant).
  - intros H. now rewrite Ft, (lastOfClass_absent Trans).
  - intros H. now rewrite Fi, (lastOfClass_absent Idi).
  - intros H. rewrite Fe. apply filter_none. intros l Hl.
    rewrite hasClass_Exm, (H l Hl). apply andb_false_r.
  - rewrite H. reflexivity.
  - rewrite H. reflexivity.
Qed.

Lemma C1_parse_total_on_nonempty_witness :
  Sample.plainRaw <> []
  /\ exists p,
    parsedContent Sample.plainRaw Sample.ephemeral = Some p
    /\ (includes Sample.plainRaw PRONUNCIATION = false -> pronunciation p = [])
    /\ (includes Sample.plainRaw SYNONYMS = false -> synonyms p = [])
    /\ (includes Sample.plainRaw ANTONYMS = false -> antonyms p = [])
    /\ (includes Sample.plainRaw TRANSLATION = false -> translation p = [])
    /\ (includes Sample.plainRaw IDIOMS = false -> idioms p = [])
    /\ ((forall l, In l (nonBlankLines Sample.plainRaw) ->
                   isExample l = false) -> examples p = [])
    /\ (nonBlankLines Sample.plainRaw = [] ->
        wordPart p = Sample.ephemeral /\ explanation p = []).
Proof.
  assert (H : Sample.plainRaw <> []) by (vm_compute; discriminate).
  split; [exact H|].
  exact (C1_parse_total_on_nonempty Sample.plainRaw Sample.ephemeral H).
Defined.

(** C1 as stated fails on the empty string: the memo returns [null], not a
    record of defaults. *)
Lemma C1_empty_string_counterexample :
  ~ exists p, parsedContent [] Sample.ephemeral = Some p.
Proof. intros [p H]. vm_compute in H. discriminate. Qed.

(** ** Precedence of the markers over the example pattern *)

(** C10, as the code has it: a line that contains one of the five marker
    substrings takes the branch of the first marker it contains, in the
    order pronunciation, synonyms, antonyms, translation, idioms; the scan
    stores it in that marker's variable and leaves the examples alone, so
    it is never among the examples of the parse, whether or not it matches
    the example pattern; and the marker field of the parse is computed from
    it when no later line takes the same branch (a later line of the same
    class overwrites the variable). *)
Theorem C10_marker_precedence (raw query : jsstring) (p : ParsedExplanation)
  (pre post : list jsstring) (line : jsstring) :
  parsedContent raw query = Some p ->
  nonBlankLines raw = pre ++ line :: post ->
  markerBearing line = true ->
  classify line =
    (if includes line PRONUNCIATION then Pron
     else if includes line SYNONYMS then Syn
     else if includes line ANTONYMS then Ant
     else if includes line TRANSLATION then Trans
     else Idi)
  /\ (forall st, fieldLine (classify line) (scanLine st line) = line
                 /\ exampleLines (scanLine st line) = exampleLines st)
  /\ ~ In line (examples p)
  /\ ((forall l, In l post -> classify l <> classify line) ->
      fieldFrom (classify line) line p).
Proof.
  intros Hp Hlines Hm. apply parsedContent_some in Hp as [_ ->].
  pose proof Hm as Hc. rewrite markerBearing_classify in Hc.
  repeat split.
  - revert Hm. unfold markerBearing, classify.
    destruct (includes line PRONUNCIATION); [reflexivity|].
    destruct (includes line SYNONYMS); [reflexivity|].
    destruct (includes line ANTONYMS); [reflexivity|].
    destruct (includes line TRANSLATION); [reflexivity|].
    destruct (includes line IDIOMS); [reflexivity|discriminate].
  - rewrite scanLine_classify. now destruct (classify line).
  - rewrite scanLine_classify. now destruct (classify line).
  - destruct (parseLines_fields (nonBlankLines raw) query)
      as (_ & _ & _ & _ & _ & Fe).
    rewrite Fe. intros Hin. apply filter_In in Hin as [_ Hin].
    rewrite hasClass_Exm, Hm in Hin. discriminate.
  - intros Hpost.
    pose proof (lastOfClass_here (classify line) pre post line
                  eq_refl Hpost) as Hlast.
    rewrite <- Hlines in Hlast. rewrite <- Hlast at 2.
    now apply fieldFrom_parseLines.
Qed.

Lemma C10_marker_precedence_witness :
  let p := parseLines (nonBlankLines Sample.numberedMarkerRaw)
                      Sample.ephemeral in
  parsedContent Sample.numberedMarkerRaw Sample.ephemeral = Some p
  /\ nonBlankLines Sample.numberedMarkerRaw
     = [lit "quick - fast"] ++ Sample.numberedMarkerLine
       :: [lit "2. Be quick."]
  /\ markerBearing Sample.numberedMarkerLine = true
  /\ isExample Sample.numberedMarkerLine = true
  /\ classify Sample.numberedMarkerLine = Syn
  /\ ~ In Sample.numberedMarkerLine (examples p)
  /\ fieldFrom Syn Sample.numberedMarkerLine p.
Proof.
  intros p.
  assert (Hp : parsedContent Sample.numberedMarkerRaw Sample.ephemeral
               = Some p) by reflexivity.
  assert (Hl : nonBlankLines Sample.numberedMarkerRaw
               = [lit "quick - fast"] ++ Sample.numberedMarkerLine
                 :: [lit "2. Be quick."])
    by (vm_compute; reflexivity).
  assert (Hm : markerBearing Sample.numberedMarkerLine = true)
    by (vm_compute; reflexivity).
  assert (Hc : classify Sample.numberedMarkerLine = Syn)
    by (vm_compute; reflexivity).
  destruct (C10_marker_precedence _ _ _ _ _ _ Hp Hl Hm)
    as (_ & _ & Hn & Hf).
  split; [exact Hp|]. split; [exact Hl|]. split; [exact Hm|].
  split; [vm_compute; reflexivity|]. split; [exact Hc|].
  split; [exact Hn|].
  rewrite Hc in Hf. apply Hf.
  intros l [<-|[]]. vm_compute. discriminate.
Defined.

(** C10 as stated fails when a later line takes the same branch: the
    numbered line that mentions the synonyms marker is stored first and
    overwritten by the synonyms line after it, so it is neither among the
    examples nor the line the synonyms come from. *)
Lemma C10_later_line_counterexample :
  exists p,
    parsedContent Sample.laterSynonymsRaw Sample.ephemeral = Some p
    /\ In Sample.numberedMarkerLine (nonBlankLines Sample.laterSynonymsRaw)
    /\ markerBearing Sample.numberedMarkerLine = true
    /\ isExample Sample.numberedMarkerLine = true
    /\ classify Sample.numberedMarkerLine = Syn
    /\ ~ In Sample.numberedMarkerLine (examples p)
    /\ synonyms p = [lit "rapid"; lit "swift"]
    /\ wordList SYNONYMS Sample.numberedMarkerLine
       = [lit "1. Use  quick"; lit "fast"]
    /\ ~ fieldFrom Syn Sample.numberedMarkerLine p.
Proof.
  eexists. split; [reflexivity|].
  split; [vm_compute; tauto|]. split; [vm_compute; reflexivity|].
  split; [vm_compute; reflexivity|]. split; [vm_compute; reflexivity|].
  split; [vm_compute; intros [H|[]]; discriminate|].
  split; [vm_compute; reflexivity|]. split; [vm_compute; reflexivity|].
  vm_compute. discriminate.
Qed.

(** ** The examples *)

(** C5, as the code has it: the examples of the parse are exactly the
    non-blank lines that contain none of the five markers and begin with
    one decimal digit followed by a period, in input order; a non-blank
    line after the first that no branch of the scan takes can be removed
    without changing the parse (said once on the lines and once on the
    text, cutting the line out between its two newlines); and a line that
    begins with two digits, such as one numbered "10.", is not an example
    line. *)
Theorem C5_example_lines (raw query : jsstring) (p : ParsedExplanation) :
  parsedContent raw query = Some p ->
  examples p
  = filter (fun l => negb (markerBearing l) && isExample l)
           (nonBlankLines raw)
  /\ (forall raw' first pre x post,
        nonBlankLines raw = first :: pre ++ x :: post ->
        classify x = Unclassified ->
        raw' <> [] ->
        nonBlankLines raw' = first :: pre ++ post ->
        parsedContent raw' query = Some p)
  /\ (forall a x b,
        raw = a ++ 0x0A%N :: x ++ 0x0A%N :: b ->
        ~ In 0x0A%N x -> classify x = Unclassified ->
        nonBlankLines a <> [] ->
        parsedContent (a ++ 0x0A%N :: b) query = Some p)
  /\ (forall d1 d2 rest,
        isDigit d1 = true -> isDigit d2 = true ->
        isExample (d1 :: d2 :: rest) = false).
Proof.
  intros Hp. apply parsedContent_some in Hp as [_ ->].
  split; [|split; [|split]].
  - destruct (parseLines_fields (nonBlankLines raw) query)
      as (_ & _ & _ & _ & _ & Fe).
    rewrite Fe. apply filter_ext. exact hasClass_Exm.
  - intros raw' first pre x post Hl Hx Hne Hl'.
    apply parsedContent_some. split; [exact Hne|].
    rewrite Hl, Hl'. unfold parseLines.
    change (first :: pre ++ x :: post) with ((first :: pre) ++ x :: post).
    rewrite (scanLines_skip (first :: pre) post x Hx). reflexivity.
  - intros a x b -> Hnl Hx Ha. apply parsedContent_some.
    split; [now destruct a | now apply parseLines_cut].
  - intros d1 d2 rest _ H2. unfold isExample, isDigit in *.
    apply andb_true_iff in H2 as [H2 _]. apply N.leb_le in H2.
    replace (d2 =? 46)%N with false; [apply andb_false_r|].
    symmetry. apply N.eqb_neq. lia.
Qed.

Lemma C5_example_lines_witness :
  let p := parseLines (nonBlankLines Sample.notedRaw) Sample.ephemeral in
  parsedContent Sample.notedRaw Sample.ephemeral = Some p
  /\ examples p = [lit "9. The ninth example."]
  /\ parsedContent Sample.unnotedRaw Sample.ephemeral = Some p
  /\ isExample Sample.tenthLine = false.
Proof.
  intros p.
  assert (Hp : parsedContent Sample.notedRaw Sample.ephemeral = Some p)
    by reflexivity.
  destruct (C5_example_lines _ _ _ Hp) as (He & Hskip & _ & Hten).
  split; [exact Hp|]. split; [rewrite He; vm_compute; reflexivity|].
  split.
  - apply (Hskip Sample.unnotedRaw (lit "quick - fast") []
                 (lit "Note: informal.") [lit "9. The ninth example."]).
    + vm_compute; reflexivity.
    + vm_compute; reflexivity.
    + vm_compute; discriminate.
    + vm_compute; reflexivity.
  - replace Sample.tenthLine
      with (0x31 :: 0x30 :: skipn 2 Sample.tenthLine)%N
      by (vm_compute; reflexivity).
    apply Hten; reflexivity.
Defined.

(** C5 as stated fails on a line numbered "10.": it is non-blank and has a
    leading integer and period, yet it is not among the examples. *)
Lemma C5_tenth_line_counterexample :
  In Sample.tenthLine (nonBlankLines Sample.tenthRaw)
  /\ leadingIntegerPeriod Sample.tenthLine = true
  /\ exists p,
       parsedContent Sample.tenthRaw Sample.ephemeral = Some p
       /\ ~ In Sample.tenthLine (examples p).
Proof.
  split; [vm_compute; tauto|]. split; [vm_compute; reflexivity|].
  eexists. split; [reflexivity|].
  vm_compute. intros [H|[]]. discriminate.
Qed.

(** ** Order of the marker lines *)

(** C4, as the code has it: when the marker-bearing lines of a text are
    permuted and the other lines stay as they are, the examples are
    unchanged and are the example lines in input order; and when at most
    one line feeds each marker field, the pronunciation, synonyms,
    antonyms, translation and idioms fields are unchanged too. *)
Theorem C4_marker_order (raw raw' query : jsstring)
  (p p' : ParsedExplanation) :
  parsedContent raw query = Some p ->
  parsedContent raw' query = Some p' ->
  markersPermuted (nonBlankLines raw) (nonBlankLines raw') ->
  examples p = filter (hasClass Exm) (nonBlankLines raw)
  /\ examples p' = examples p
  /\ (oneLinePerField (nonBlankLines raw) ->
      pronunciation p' = pronunciation p
      /\ synonyms p' = synonyms p
      /\ antonyms p' = antonyms p
      /\ translation p' = translation p
      /\ idioms p' = idioms p).
Proof.
  intros Hp Hp' Hperm.
  apply parsedContent_some in Hp as [_ ->].
  apply parsedContent_some in Hp' as [_ ->].
  destruct (parseLines_fields (nonBlankLines raw) query)
    as (Fp & Fs & Fa & Ft & Fi & Fe).
  destruct (parseLines_fields (nonBlankLines raw') query)
    as (Fp' & Fs' & Fa' & Ft' & Fi' & Fe').
  split; [exact Fe|]. split.
  - rewrite Fe, Fe'. symmetry. now apply examples_permuted.
  - intros Hone.
    rewrite Fp, Fs, Fa, Ft, Fi, Fp', Fs', Fa', Ft', Fi'.
    rewrite <- (lastOfClass_permuted Pron _ _ eq_refl Hperm
                  (Hone Pron eq_refl)).
    rewrite <- (lastOfClass_permuted Syn _ _ eq_refl Hperm
                  (Hone Syn eq_refl)).
    rewrite <- (lastOfClass_permuted Ant _ _ eq_refl Hperm
                  (Hone Ant eq_refl)).
    rewrite <- (lastOfClass_permuted Trans _ _ eq_refl Hperm
                  (Hone Trans eq_refl)).
    rewrite <- (lastOfClass_permuted Idi _ _ eq_refl Hperm
                  (Hone Idi eq_refl)).
    repeat split.
Qed.

Lemma C4_marker_order_witness :
  let p := Sample.ephemeralParsed in
  exists p',
    parsedContent Sample.ephemeralRaw Sample.ephemeral = Some p
    /\ parsedContent Sample.ephemeralReorderedRaw Sample.ephemeral = Some p'
    /\ markersPermuted (nonBlankLines Sample.ephemeralRaw)
                       (nonBlankLines Sample.ephemeralReorderedRaw)
    /\ oneLinePerField (nonBlankLines Sample.ephemeralRaw)
    /\ examples p' = examples p
    /\ pronunciation p' = pronunciation p
    /\ synonyms p' = synonyms p
    /\ antonyms p' = antonyms p
    /\ translation p' = translation p
    /\ idioms p' = idioms p.
Proof.
  intros p.
  exists (parseLines (nonBlankLines Sample.ephemeralReorderedRaw)
                     Sample.ephemeral).
  assert (Hp : parsedContent Sample.ephemeralRaw Sample.ephemeral = Some p)
    by (vm_compute; reflexivity).
  assert (Hp' : parsedContent Sample.ephemeralReorderedRaw Sample.ephemeral
                = Some (parseLines
                          (nonBlankLines Sample.ephemeralReorderedRaw)
                          Sample.ephemeral)) by reflexivity.
  assert (Hperm : markersPermuted
                    (nonBlankLines Sample.ephemeralRaw)
                    (nonBlankLines Sample.ephemeralReorderedRaw)).
  { split; [|vm_compute; reflexivity].
    replace (filter markerBearing
               (nonBlankLines Sample.ephemeralReorderedRaw))
      with (rev (filter markerBearing (nonBlankLines Sample.ephemeralRaw)))
      by (vm_compute; reflexivity).
    apply Permutation_rev. }
  assert (Hone : oneLinePerField (nonBlankLines Sample.ephemeralRaw)).
  { intros c Hc.
    destruct c; [| | | | | discriminate Hc | discriminate Hc];
      vm_compute; lia. }
  destruct (C4_marker_order _ _ _ _ _ Hp Hp' Hperm) as (_ & He & Hf).
  destruct (Hf Hone) as (H1 & H2 & H3 & H4 & H5).
  repeat (split; [assumption|]). assumption.
Defined.

(** C4 as stated fails when two lines feed one field: the later one wins,
    so swapping them changes the synonyms. *)
Lemma C4_two_synonym_lines_counterexample :
  nonBlankLines Sample.twoSynonymsSwappedRaw
  = refill (nonBlankLines Sample.twoSynonymsRaw)
           [lit "SYNONYMS: swift"; lit "SYNONYMS: rapid"]
  /\ markersPermuted (nonBlankLines Sample.twoSynonymsRaw)
                     (nonBlankLines Sample.twoSynonymsSwappedRaw)
  /\ exists p p',
       parsedContent Sample.twoSynonymsRaw Sample.ephemeral = Some p
       /\ parsedContent Sample.twoSynonymsSwappedRaw Sample.ephemeral
          = Some p'
       /\ synonyms p = [lit "swift"]
       /\ synonyms p' = [lit "rapid"]
       /\ synonyms p <> synonyms p'.
Proof.
  split; [vm_compute; reflexivity|]. split.
  - split; [|vm_compute; reflexivity].
    replace (filter markerBearing
               (nonBlankLines Sample.twoSynonymsSwappedRaw))
      with (rev (filter markerBearing
                   (nonBlankLines Sample.twoSynonymsRaw)))
      by (vm_compute; reflexivity).
    apply Permutation_rev.
  - do 2 eexists. split; [reflexivity|]. split; [reflexivity|].
    split; [vm_compute; reflexivity|]. split; [vm_compute; reflexivity|].
    vm_compute. discriminate.
Qed.

(** ** Headword and definition *)

Lemma stripEmphasis_plain (s : jsstring) :
  includes s [0x2A; 0x2A]%N = false -> stripEmphasis s = s.
Proof.
  induction s as [|a t IH]; [reflexivity|].
  cbn [includes]. intros H. apply orb_false_iff in H as [H1 H2].
  cbn [stripEmphasis]. destruct t as [|b r]; [reflexivity|].
  destruct ((a =? 0x2A) && (b =? 0x2A))%N eqn:E.
  - apply andb_true_iff in E as [Ea Eb].
    apply N.eqb_eq in Ea, Eb. subst a b.
    assert (startsWith (0x2A :: 0x2A :: r) [0x2A; 0x2A] = true)%N
      by (apply startsWith_app; now exists r).
    pose proof (eq_trans (eq_sym H) H1). discriminate.
  - now rewrite (IH H2).
Qed.

Lemma splitWordLine_spec (wordLine query : jsstring) :
  let c := stripEmphasis wordLine in
  (includes c SEPARATOR = false -> splitWordLine wordLine query = (query, c))
  /\ (includes c SEPARATOR = true ->
      exists a b,
        c = a ++ SEPARATOR ++ b
        /\ (forall a' b', c = a' ++ SEPARATOR ++ b' ->
                          (length a <= length a')%nat)
        /\ splitWordLine wordLine query = (trim a, trim b)).
Proof.
  intros c. unfold splitWordLine, indexOf. fold c.
  destruct (search c SEPARATOR) as [i|] eqn:E.
  - split.
    + intros H. apply search_none in H. congruence.
    + intros _. destruct (search_some _ _ _ E) as (a & b & Hc & Hlen & Hmin).
      exists a, b. split; [exact Hc|]. split.
      * intros a' b' H'. rewrite Hlen. exact (Hmin a' b' H').
      * replace (negb (Z.of_nat i =? -1)%Z) with true
          by (symmetry; apply negb_true_iff, Z.eqb_neq; lia).
        rewrite Hc at 1 2. subst i. rewrite substring_prefix. f_equal.
        rewrite app_assoc. rewrite substring_from_suffix; [reflexivity|].
        rewrite length_app. simpl. lia.
  - split.
    + intros _. reflexivity.
    + intros H. apply search_none in E. congruence.
Qed.

(** C3, as the code has it: the first non-blank line is first cleaned of
    every pair of asterisks (a line without such a pair is left as it is).
    When the cleaned line contains no separator, the headword is the query
    verbatim and the definition is the cleaned line; when it does, the
    headword is the trimmed text before the first separator of the cleaned
    line and the definition is the trimmed text after it. *)
Theorem C3_headword_definition (raw query : jsstring)
  (p : ParsedExplanation) :
  parsedContent raw query = Some p ->
  let line := firstLine (nonBlankLines raw) in
  let c := stripEmphasis line in
  (includes line [0x2A; 0x2A]%N = false -> c = line)
  /\ (includes c SEPARATOR = false ->
      wordPart p = query /\ explanation p = c)
  /\ (includes c SEPARATOR = true ->
      exists a b,
        c = a ++ SEPARATOR ++ b
        /\ (forall a' b', c = a' ++ SEPARATOR ++ b' ->
                          (length a <= length a')%nat)
        /\ wordPart p = trim a /\ explanation p = trim b).
Proof.
  intros Hp line c. apply parsedContent_some in Hp as [_ ->].
  pose proof (parseLines_word (nonBlankLines raw) query) as W.
  fold line in W.
  destruct (splitWordLine_spec line query) as [Hno Hyes]. fold c in Hno, Hyes.
  split; [apply stripEmphasis_plain|]. split.
  - intros H. rewrite (Hno H) in W. now injection W.
  - intros H. destruct (Hyes H) as (a & b & Hc & Hmin & Hs).
    exists a, b. rewrite Hs in W. injection W as W1 W2. now repeat split.
Qed.

Lemma C3_headword_definition_witness :
  (let p := parseLines (nonBlankLines Sample.plainRaw) Sample.ephemeral in
   parsedContent Sample.plainRaw Sample.ephemeral = Some p
   /\ wordPart p = Sample.ephemeral
   /\ explanation p = lit "just some words")
  /\ (let p := Sample.ephemeralParsed in
      parsedContent Sample.ephemeralRaw Sample.ephemeral = Some p
      /\ exists a b,
           lit "ephemeral - lasting for a very short time."
           = a ++ SEPARATOR ++ b
           /\ wordPart p = trim a /\ explanation p = trim b).
Proof.
  split.
  - intros p.
    assert (Hp : parsedContent Sample.plainRaw Sample.ephemeral = Some p)
      by reflexivity.
    destruct (C3_headword_definition _ _ _ Hp) as (_ & Hno & _).
    split; [exact Hp|]. apply Hno. vm_compute; reflexivity.
  - intros p.
    assert (Hp : parsedContent Sample.ephemeralRaw Sample.ephemeral = Some p)
      by (vm_compute; reflexivity).
    destruct (C3_headword_definition _ _ _ Hp) as (_ & _ & Hyes).
    split; [exact Hp|].
    destruct Hyes as (a & b & Hc & _ & Hw & He); [vm_compute; reflexivity|].
    exists a, b. split; [|split; assumption].
    rewrite <- Hc. vm_compute; reflexivity.
Defined.

(** C3 as stated fails in both halves: a first line with no separator in
    it can still be split, once its emphasis markup is gone, and the
    headword is not the text before the separator when that text carries
    emphasis markup. *)
Lemma C3_emphasis_counterexample :
  (firstLine (nonBlankLines Sample.boldDashRaw) = Sample.boldDashRaw
   /\ includes Sample.boldDashRaw SEPARATOR = false
   /\ exists p,
        parsedContent Sample.boldDashRaw Sample.ephemeral = Some p
        /\ wordPart p = lit "quick"
        /\ wordPart p <> Sample.ephemeral)
  /\ (firstLine (nonBlankLines Sample.boldWordRaw)
      = lit "**quick**" ++ SEPARATOR ++ lit "fast"
      /\ includes (lit "**quick**") SEPARATOR = false
      /\ exists p,
           parsedContent Sample.boldWordRaw Sample.ephemeral = Some p
           /\ wordPart p = lit "quick"
           /\ wordPart p <> lit "**quick**").
Proof.
  split.
  - split; [vm_compute; reflexivity|]. split; [vm_compute; reflexivity|].
    eexists. split; [reflexivity|]. split; [vm_compute; reflexivity|].
    vm_compute. discriminate.
  - split; [vm_compute; reflexivity|]. split; [vm_compute; reflexivity|].
    eexists. split; [reflexivity|]. split; [vm_compute; reflexivity|].
    vm_compute. discriminate.
Qed.

(** ** Pronunciation *)

Lemma filter_hasClass_Pron (ls : list jsstring) :
  filter (hasClass Pron) ls = filter (fun l => includes l PRONUNCIATION) ls.
Proof.
  apply filter_ext. intros l. unfold hasClass, classify.
  destruct (includes l PRONUNCIATION); [reflexivity|].
  destruct (includes l SYNONYMS); [reflexivity|].
  destruct (includes l ANTONYMS); [reflexivity|].
  destruct (includes l TRANSLATION); [reflexivity|].
  destruct (includes l IDIOMS); [reflexivity|].
  destruct (isExample l); reflexivity.
Qed.

(** C6, as the code has it: the pronunciation is computed from the last
    non-blank line that contains the pronunciation marker (the empty string
    when there is none): the first occurrence of the marker is removed (the
    prefix, when the line starts with it), the rest is trimmed, every
    bracket character in it is removed, not only the surrounding ones, and
    it is trimmed again; the result is wrapped in brackets when it is not
    empty and is the empty string otherwise, so the field is never "[]",
    and it is empty when the text has no pronunciation marker. *)
Theorem C6_pronunciation (raw query : jsstring) (p : ParsedExplanation) :
  parsedContent raw query = Some p ->
  let line :=
    last (filter (fun l => includes l PRONUNCIATION) (nonBlankLines raw)) []
  in
  let body := trim (stripBrackets (trim (replace_first line PRONUNCIATION)))
  in
  pronunciation p = (if truthy body then [0x5B] ++ body ++ [0x5D] else [])%N
  /\ (forall rest, line = PRONUNCIATION ++ rest ->
                   body = trim (stripBrackets (trim rest)))
  /\ (forall c, In c body -> c <> 0x5B /\ c <> 0x5D)%N
  /\ pronunciation p <> [0x5B; 0x5D]%N
  /\ (includes raw PRONUNCIATION = false -> pronunciation p = []).
Proof.
  intros Hp line body. apply parsedContent_some in Hp as [_ ->].
  destruct (parseLines_fields (nonBlankLines raw) query) as (Fp & _).
  assert (E : pronunciation (parseLines (nonBlankLines raw) query)
              = (if truthy body then [0x5B] ++ body ++ [0x5D] else [])%N).
  { rewrite Fp. unfold lastOfClass. rewrite filter_hasClass_Pron.
    reflexivity. }
  split; [exact E|]. split; [|split; [|split]].
  - intros rest Hl. unfold body. now rewrite Hl, replace_first_prefix.
  - intros c Hc. unfold body in Hc. apply In_trim in Hc.
    unfold stripBrackets in Hc. apply filter_In in Hc as [_ Hc].
    apply negb_true_iff, orb_false_iff in Hc as [H1 H2].
    apply N.eqb_neq in H1, H2. now split.
  - rewrite E. destruct body as [|c body']; simpl; [discriminate|].
    intros H. injection H as _ H. destruct body'; discriminate.
  - intros H. rewrite Fp. now rewrite (lastOfClass_absent Pron).
Qed.

Lemma C6_pronunciation_witness :
  (parsedContent Sample.ephemeralRaw Sample.ephemeral
   = Some Sample.ephemeralParsed
   /\ pronunciation Sample.ephemeralParsed = lit "[ih-FEM-er-uhl]")
  /\ (let p := parseLines (nonBlankLines Sample.emptyBracketRaw)
                          Sample.ephemeral in
      parsedContent Sample.emptyBracketRaw Sample.ephemeral = Some p
      /\ pronunciation p = []).
Proof.
  split.
  - assert (Hp : parsedContent Sample.ephemeralRaw Sample.ephemeral
                 = Some Sample.ephemeralParsed) by (vm_compute; reflexivity).
    destruct (C6_pronunciation _ _ _ Hp) as (E & _).
    split; [exact Hp|]. rewrite E. vm_compute; reflexivity.
  - intros p.
    assert (Hp : parsedContent Sample.emptyBracketRaw Sample.ephemeral
                 = Some p) by reflexivity.
    destruct (C6_pronunciation _ _ _ Hp) as (E & _).
    split; [exact Hp|]. rewrite E. vm_compute; reflexivity.
Defined.

(** C6 as stated fails on brackets inside the transcription: stripping the
    surrounding brackets would keep them, the code removes them. *)
Lemma C6_inner_brackets_counterexample :
  exists p,
    parsedContent Sample.innerBracketRaw Sample.ephemeral = Some p
    /\ last (filter (fun l => includes l PRONUNCIATION)
                    (nonBlankLines Sample.innerBracketRaw)) []
       = Sample.innerBracketLine
    /\ pronunciationWorded Sample.innerBracketLine = lit "[kw[i]k]"
    /\ pronunciation p = lit "[kwik]"
    /\ pronunciation p <> pronunciationWorded Sample.innerBracketLine.
Proof.
  eexists. split; [reflexivity|].
  split; [vm_compute; reflexivity|]. split; [vm_compute; reflexivity|].
  split; [vm_compute; reflexivity|]. vm_compute. discriminate.
Qed.

(** ** The explanation client *)

(** C9: the fetch fails with the empty-response error exactly when the
    remote call resolves with no text (an absent or an empty [text]); when
    the text is present and not empty the fetch returns it unchanged; and
    an error of the remote call is passed on as it is. *)
Theorem C9_empty_response (E : Type)
  (generateContent : jsstring -> Generated E) (word : jsstring) :
  (getGeminiExplanation generateContent word = inl EmptyResponse <->
   generateContent (prompt word) = Response None
   \/ generateContent (prompt word) = Response (Some []))
  /\ (forall t, t <> [] ->
        generateContent (prompt word) = Response (Some t) ->
        getGeminiExplanation generateContent word = inr t)
  /\ (forall e, generateContent (prompt word) = Rejected e ->
        getGeminiExplanation generateContent word = inl (ServiceError e)).
Proof.
  unfold getGeminiExplanation.
  split; [|split].
  - destruct (generateContent (prompt word)) as [e|[[|c t]|]]; simpl.
    + split; [discriminate | intros [H|H]; discriminate].
    + split; [intros _; now right | reflexivity].
    + split; [discriminate | intros [H|H]; discriminate].
    + split; [intros _; now left | reflexivity].
  - intros t Ht ->. destruct t; [contradiction | reflexivity].
  - intros e ->. reflexivity.
Qed.

Lemma C9_empty_response_witness :
  getGeminiExplanation (E := unit) (fun _ => Response None) Sample.ephemeral
  = inl EmptyResponse
  /\ getGeminiExplanation (E := unit) (fun _ => Response (Some []))
        Sample.ephemeral
     = inl EmptyResponse
  /\ getGeminiExplanation (E := unit)
        (fun _ => Response (Some Sample.ephemeralRaw)) Sample.ephemeral
     = inr Sample.ephemeralRaw
  /\ getGeminiExplanation (fun _ => Rejected tt) Sample.ephemeral
     = inl (ServiceError tt).
Proof.
  split; [|split; [|split]].
  - apply (C9_empty_response unit (fun _ => Response None)). now left.
  - apply (C9_empty_response unit (fun _ => Response (Some []))). now right.
  - apply (C9_empty_response unit
             (fun _ => Response (Some Sample.ephemeralRaw)));
      [vm_compute; discriminate | reflexivity].
  - now apply (C9_empty_response unit (fun _ => Rejected tt)).
Defined.

(** ** The lookup controller *)

Section ControllerFacts.

Variable E : Type.

Lemma guard_rejects (s : State) :
  isLoading s = true \/ trim (word s) = [] ->
  getWordExplanation s = (s, None).
Proof.
  unfold getWordExplanation. intros [H|H].
  - rewrite H. now rewrite orb_true_r.
  - now rewrite H.
Qed.

Lemma guard_accepts (s : State) :
  trim (word s) <> [] -> isLoading s = false ->
  getWordExplanation s
  = (mkState (word s) [] true true false (isTyping s) true, Some (word s)).
Proof.
  unfold getWordExplanation. intros Hw ->.
  apply truthy_true in Hw. now rewrite Hw.
Qed.

(** Run from the render of the current cells, the closure is the
    function of the state alone. *)
Lemma getWordExplanationIn_same (s : State) :
  getWordExplanationIn s s = getWordExplanation s.
Proof. reflexivity. Qed.

Lemma closure_rejects (render s : State) :
  isLoading render = true \/ trim (word render) = [] ->
  getWordExplanationIn render s = (s, None).
Proof.
  unfold getWordExplanationIn. intros [H|H].
  - rewrite H. now rewrite orb_true_r.
  - now rewrite H.
Qed.

Lemma closure_accepts (render s : State) :
  trim (word render) <> [] -> isLoading render = false ->
  getWordExplanationIn render s
  = (mkState (word s) [] true true false (isTyping s) true,
     Some (word render)).
Proof.
  unfold getWordExplanationIn. intros Hw ->.
  apply truthy_true in Hw. now rewrite Hw.
Qed.

Lemma closure_cases (render s : State) :
  getWordExplanationIn render s = (s, None)
  \/ (truthy (trim (word render)) = true /\ isLoading render = false
      /\ getWordExplanationIn render s
         = (mkState (word s) [] true true false (isTyping s) true,
            Some (word render))).
Proof.
  unfold getWordExplanationIn.
  destruct (truthy (trim (word render))); simpl; [|now left].
  destruct (isLoading render); simpl; [now left | now right].
Qed.

Lemma In_removeAt (A : Type) (i : nat) (l : list A) (x : A) :
  In x (removeAt i l) -> In x l.
Proof.
  unfold removeAt. revert i. induction l as [|y l IH]; intros i H.
  - destruct i; simpl in H; contradiction.
  - destruct i as [|i]; simpl in H.
    + now right.
    + destruct H as [H|H]; [now left | right; exact (IH i H)].
Qed.

Lemma removeAt_single (A : Type) (i : nat) (q : A) :
  (i < 1)%nat -> removeAt i [q] = [].
Proof. intros H. assert (i = 0%nat) by lia. now subst. Qed.

Lemma length_removeAt (A : Type) (i : nat) (l : list A) :
  (i < length l)%nat -> length (removeAt i l) = pred (length l).
Proof.
  intros H. unfold removeAt.
  rewrite length_app, length_firstn, length_skipn. lia.
Qed.

Lemma step_tidy (sys : System) (ev : Event E) :
  tidy sys -> tidy (step sys ev).
Proof.
  unfold tidy, quiet. destruct sys as [s r out]. simpl.
  intros ((Hf & Hl & Hh) & Qr & Hout & Hhs & Hq).
  destruct ev as [|value|i g| |]; simpl.
  - destruct (closure_cases r s) as [Hc|(Hw & Hr & Hc)]; rewrite Hc; simpl.
    + rewrite app_nil_r. tauto.
    + split; [repeat split; discriminate|]. split; [exact Qr|].
      split; [intros _ H; now apply app_eq_nil in H as [_ H]|].
      split; [reflexivity|].
      intros q Hin. apply in_app_or in Hin as [Hin|[<-|[]]].
      * now apply Hq.
      * now apply truthy_true.
  - split; [|tauto]. split; [exact Hf|]. split.
    + intros H. split; [reflexivity | now apply Hl].
    + intros H. destruct (Hh H) as (? & _ & ? & ?). tauto.
  - destruct (Nat.ltb_spec i (length out)) as [Hi|Hi]; simpl; [|tauto].
    assert (Hne : out <> []) by (destruct out; [simpl in Hi; lia | discriminate]).
    pose proof (Hhs Hne) as Hs.
    assert (Hq' : forall q, In q (removeAt i out) -> trim q <> [])
      by (intros q Hin; apply Hq; exact (In_removeAt _ _ _ _ Hin)).
    destruct (settle g); simpl;
      (split; [split; [reflexivity|];
               split; [discriminate | rewrite Hs; discriminate]|]);
      (split; [exact Qr|]); (split; [discriminate|]);
      (split; [intros _; exact Hs | exact Hq']).
  - split; [|tauto]. split; [exact Hf|]. split; [exact Hl|].
    intros H. destruct (Hh H) as (? & ? & ? & _). tauto.
  - tauto.
Qed.

Lemma run_tidy_from (sys : System) (evs : list (Event E)) :
  tidy sys -> tidy (run sys evs).
Proof.
  revert sys. induction evs as [|ev evs IH]; intros sys H; [exact H|].
  apply IH, step_tidy, H.
Qed.

Lemma start_tidy : tidy start.
Proof.
  unfold tidy, quiet. simpl.
  repeat split; try discriminate; try tauto.
Qed.

Lemma run_tidy (evs : list (Event E)) : tidy (run start evs).
Proof. apply run_tidy_from, start_tidy. Qed.

Lemma step_orderly (sys : System) (ev : Event E) :
  tidy sys -> orderly sys ->
  match ev with
  | Submit => isLoading (rendered sys) = isLoading (app sys)
  | _ => True
  end ->
  orderly (step sys ev).
Proof.
  unfold tidy, quiet, orderly, consistent. destruct sys as [s r out]. simpl.
  intros ((_ & Hl & _) & _) [Hc He] Hfresh.
  destruct ev as [|value|i g| |]; simpl.
  - destruct (closure_cases r s) as [Hg|(Hw & Hr & Hg)]; rewrite Hg; simpl.
    + rewrite app_nil_r. tauto.
    + rewrite Hr in Hfresh. rewrite <- Hfresh in Hc. rewrite Hc. simpl.
      split; [|discriminate]. split; [now exists (word r) | reflexivity].
  - split; [exact Hc | discriminate].
  - destruct (Nat.ltb_spec i (length out)) as [Hi|Hi]; simpl; [|tauto].
    destruct (isLoading s) eqn:El;
      [|rewrite Hc in Hi; simpl in Hi; lia].
    destruct Hc as [[q Hq] Hr]. subst out. simpl in Hi.
    rewrite (removeAt_single _ i q Hi).
    destruct (Hl eq_refl) as [Her _].
    destruct (settle g); simpl.
    + split; [reflexivity | intros _; exact Hr].
    + split; [reflexivity|]. rewrite Her. discriminate.
  - tauto.
  - tauto.
Qed.

Lemma run_orderly_from (sys : System) (evs : list (Event E)) :
  tidy sys -> orderly sys -> freshSubmits sys evs -> orderly (run sys evs).
Proof.
  revert sys. induction evs as [|ev evs IH]; intros sys Ht Ho Hf;
    [exact Ho|].
  destruct Hf as [Hev Hf]. apply IH.
  - now apply step_tidy.
  - now apply step_orderly.
  - exact Hf.
Qed.

Lemma start_orderly : orderly start.
Proof. unfold orderly, consistent. simpl. split; [reflexivity|discriminate]. Qed.

Lemma run_orderly (evs : list (Event E)) :
  freshSubmits start evs -> orderly (run start evs).
Proof. apply run_orderly_from; [apply start_tidy | apply start_orderly]. Qed.

Lemma run_app (sys : System) (evs evs' : list (Event E)) :
  run sys (evs ++ evs') = run (run sys evs) evs'.
Proof. apply fold_left_app. Qed.

End ControllerFacts.



(** * Further properties of the code *)

(** ** More on the string operations *)

Section TrimFacts.

Lemma trimStart_head (s : jsstring) :
  isWhiteSpace (hd 0%N (trimStart s)) = false.
Proof.
  induction s as [|c s IH]; simpl; [reflexivity|].
  destruct (isWhiteSpace c) eqn:Ec; [exact IH | exact Ec].
Qed.

Lemma trimStart_fixed (s : jsstring) :
  isWhiteSpace (hd 0%N s) = false -> trimStart s = s.
Proof. destruct s as [|c s]; simpl; [reflexivity|]. now intros ->. Qed.

Lemma trimStart_suffix (s : jsstring) : exists a, s = a ++ trimStart s.
Proof.
  induction s as [|c s [a Ha]]; simpl; [now exists []|].
  destruct (isWhiteSpace c); [|now exists []].
  exists (c :: a). simpl. now f_equal.
Qed.

Lemma trimStart_snoc (u : jsstring) (c : code_unit) :
  isWhiteSpace c = false -> trimStart (u ++ [c]) = trimStart u ++ [c].
Proof.
  intros Hc. induction u as [|d u IH]; simpl; [now rewrite Hc|].
  destruct (isWhiteSpace d); [exact IH | reflexivity].
Qed.

Lemma trimEnd_cons (c : code_unit) (t : jsstring) :
  isWhiteSpace c = false -> trimEnd (c :: t) = c :: trimEnd t.
Proof.
  intros Hc. unfold trimEnd. simpl.
  rewrite (trimStart_snoc _ _ Hc), rev_app_distr. reflexivity.
Qed.

Lemma trimEnd_prefix (s : jsstring) : exists b, s = trimEnd s ++ b.
Proof.
  unfold trimEnd. destruct (trimStart_suffix (rev s)) as [a Ha].
  exists (rev a). rewrite <- rev_app_distr, <- Ha. now rewrite rev_involutive.
Qed.

(** The trimmed string is a contiguous part of the string. *)
Lemma trim_piece (s : jsstring) : exists a b, s = a ++ trim s ++ b.
Proof.
  unfold trim. destruct (trimStart_suffix s) as [a Ha].
  destruct (trimEnd_prefix (trimStart s)) as [b Hb].
  exists a, b. now rewrite <- Hb.
Qed.

(** Neither end of a trimmed string is white space. *)
Lemma trim_ends (s : jsstring) :
  isWhiteSpace (hd 0%N (trim s)) = false
  /\ isWhiteSpace (last (trim s) 0%N) = false.
Proof.
  split.
  - unfold trim. pose proof (trimStart_head s) as H.
    destruct (trimStart s) as [|c t]; [reflexivity|].
    simpl in H. now rewrite (trimEnd_cons _ _ H).
  - unfold trim, trimEnd.
    pose proof (trimStart_head (rev (trimStart s))) as H.
    destruct (trimStart (rev (trimStart s))) as [|c t]; [reflexivity|].
    simpl in H. simpl. now rewrite last_last.
Qed.

Lemma trimEnd_fixed (s : jsstring) :
  isWhiteSpace (last s 0%N) = false -> trimEnd s = s.
Proof.
  intros H. unfold trimEnd. rewrite trimStart_fixed.
  - apply rev_involutive.
  - destruct s as [|c t] using rev_ind; [reflexivity|].
    rewrite rev_app_distr. simpl. now rewrite last_last in H.
Qed.

Lemma trim_idempotent (s : jsstring) : trim (trim s) = trim s.
Proof.
  destruct (trim_ends s) as [Hh Hl]. unfold trim at 1.
  rewrite (trimStart_fixed _ Hh). now apply trimEnd_fixed.
Qed.

Lemma includes_trim (s pat : jsstring) :
  includes (trim s) pat = true -> includes s pat = true.
Proof.
  intros H. destruct (trim_piece s) as [a [b Hs]]. rewrite Hs.
  now apply includes_inside.
Qed.

Lemma split_piece_no_sep (s : jsstring) (sep : code_unit) (l : jsstring) :
  In l (split s sep) -> ~ In sep l.
Proof.
  revert l. induction s as [|c s IH]; simpl; intros l Hl.
  - destruct Hl as [<-|[]]. tauto.
  - destruct (N.eqb_spec c sep) as [->|Hne].
    + destruct Hl as [<-|Hl]; [tauto | now apply IH].
    + destruct (split s sep) as [|m ms] eqn:Es.
      * destruct Hl as [<-|[]]. intros [H|[]]. congruence.
      * destruct Hl as [<-|Hl].
        -- intros [H|H]; [congruence|].
           now apply (IH m (or_introl eq_refl)).
        -- apply IH. now right.
Qed.

(** Removal of the emphasis markup leaves an asterisk only before
    something that is not an asterisk. *)
Lemma stripEmphasis_head (b : code_unit) (r : jsstring) :
  (b =? 0x2A)%N = false -> exists t, stripEmphasis (b :: r) = b :: t.
Proof.
  intros Hb. cbn [stripEmphasis]. destruct r as [|c r']; [now exists []|].
  rewrite Hb. simpl. eexists. reflexivity.
Qed.

Lemma stripEmphasis_two (a b : code_unit) (r : jsstring) :
  stripEmphasis (a :: b :: r)
  = if ((a =? 0x2A) && (b =? 0x2A))%N then stripEmphasis r
    else a :: stripEmphasis (b :: r).
Proof. reflexivity. Qed.

Lemma stripEmphasis_clean_upto (n : nat) (s : jsstring) :
  (length s <= n)%nat ->
  includes (stripEmphasis s) [0x2A; 0x2A]%N = false.
Proof.
  revert s. induction n as [|n IH]; intros s Hlen.
  - destruct s; [reflexivity | simpl in Hlen; lia].
  - destruct s as [|a [|b r]]; [reflexivity| |].
    + cbn [stripEmphasis includes startsWith]. simpl.
      now rewrite andb_false_r.
    + rewrite stripEmphasis_two.
      destruct ((a =? 0x2A) && (b =? 0x2A))%N eqn:Eab.
      * apply IH. simpl in Hlen. lia.
      * assert (Hrec : includes (stripEmphasis (b :: r)) [0x2A; 0x2A]%N
                       = false) by (apply IH; simpl in *; lia).
        cbn [includes]. rewrite Hrec, orb_false_r.
        destruct (a =? 0x2A)%N eqn:Ea.
        -- simpl in Eab. destruct (stripEmphasis_head b r Eab) as [t Ht].
           rewrite Ht. cbn [startsWith]. now rewrite Eab, andb_false_r.
        -- cbn [startsWith]. now rewrite Ea.
Qed.

Lemma stripEmphasis_clean (s : jsstring) :
  includes (stripEmphasis s) [0x2A; 0x2A]%N = false.
Proof. now apply (stripEmphasis_clean_upto (length s)). Qed.

Lemma includes_false_inside (a s b pat : jsstring) :
  includes (a ++ s ++ b) pat = false -> includes s pat = false.
Proof.
  intros H. destruct (includes s pat) eqn:E; [|reflexivity].
  apply (includes_inside a s b) in E. congruence.
Qed.

End TrimFacts.

(** ** More on the parse *)

(** X1: the removal of the emphasis markup, [replace(/\*\*/g, '')], leaves no
    pair of asterisks behind, whatever run of asterisks the text has, and
    removing twice is the same as removing once. *)
Theorem X1_stripEmphasis_clean (s : jsstring) :
  includes (stripEmphasis s) (lit "**") = false
  /\ stripEmphasis (stripEmphasis s) = stripEmphasis s.
Proof.
  split; [apply stripEmphasis_clean|].
  apply stripEmphasis_plain, stripEmphasis_clean.
Qed.

Lemma wordList_entry (marker line e : jsstring) :
  In e (wordList marker line) ->
  e <> [] /\ trim e = e
  /\ isWhiteSpace (hd 0%N e) = false /\ isWhiteSpace (last e 0%N) = false
  /\ ~ In 0x2C%N e /\ includes e (lit "**") = false.
Proof.
  unfold wordList. intros H. apply filter_In in H as [H Ht].
  apply in_map_iff in H as [l [<- Hl]].
  destruct (trim_ends l) as [Hh Hlast].
  split; [now apply truthy_true|]. split; [apply trim_idempotent|].
  split; [exact Hh|]. split; [exact Hlast|]. split.
  - intros Hc. apply In_trim in Hc.
    exact (split_piece_no_sep _ _ _ Hl Hc).
  - destruct (includes (trim l) (lit "**")) eqn:E; [|reflexivity].
    apply includes_trim in E.
    destruct (split_piece _ _ _ Hl) as [a [b Hs]].
    apply (includes_inside a l b) in E. rewrite <- Hs in E.
    pose proof (stripEmphasis_clean (replace_first line marker)) as Hc.
    pose proof (eq_trans (eq_sym E) Hc). discriminate.
Qed.

(** X2: every entry of the synonyms and of the antonyms is a non-empty
    text with no white space at either end, no comma and no emphasis
    markup. *)
Theorem X2_word_entries (raw query : jsstring) (p : ParsedExplanation)
  (e : jsstring) :
  parsedContent raw query = Some p ->
  In e (synonyms p) \/ In e (antonyms p) ->
  e <> [] /\ trim e = e
  /\ isWhiteSpace (hd 0%N e) = false /\ isWhiteSpace (last e 0%N) = false
  /\ ~ In 0x2C%N e /\ includes e (lit "**") = false.
Proof.
  intros Hp He. apply parsedContent_some in Hp as [_ ->].
  destruct (parseLines_fields (nonBlankLines raw) query)
    as (_ & Fs & Fa & _).
  rewrite Fs, Fa in He.
  destruct He as [He|He]; exact (wordList_entry _ _ _ He).
Qed.

Lemma X2_word_entries_witness :
  parsedContent Sample.ephemeralRaw Sample.ephemeral
  = Some Sample.ephemeralParsed
  /\ In (lit "transient") (synonyms Sample.ephemeralParsed)
  /\ trim (lit "transient") = lit "transient"
  /\ ~ In 0x2C%N (lit "transient").
Proof.
  assert (Hp : parsedContent Sample.ephemeralRaw Sample.ephemeral
               = Some Sample.ephemeralParsed) by (vm_compute; reflexivity).
  assert (Hin : In (lit "transient") (synonyms Sample.ephemeralParsed))
    by (right; left; reflexivity).
  destruct (X2_word_entries _ _ _ _ Hp (or_introl Hin))
    as (_ & Ht & _ & _ & Hc & _).
  repeat split; assumption.
Defined.

Lemma fieldText_clean (marker line : jsstring) :
  trim (fieldText marker line) = fieldText marker line
  /\ includes (fieldText marker line) (lit "**") = false.
Proof.
  unfold fieldText. split; [apply trim_idempotent|].
  destruct (includes (trim (stripEmphasis (replace_first line marker)))
              (lit "**")) eqn:E; [|reflexivity].
  apply includes_trim in E.
  pose proof (stripEmphasis_clean (replace_first line marker)) as Hc.
  pose proof (eq_trans (eq_sym E) Hc). discriminate.
Qed.

Lemma trim_clean (s : jsstring) :
  includes s (lit "**") = false -> includes (trim s) (lit "**") = false.
Proof.
  intros H. destruct (trim_piece s) as [a [b Hs]]. rewrite Hs in H.
  exact (includes_false_inside _ _ _ _ H).
Qed.

Lemma headword_definition_split (raw query : jsstring) :
  let p := parseLines (nonBlankLines raw) query in
  let c := stripEmphasis (firstLine (nonBlankLines raw)) in
  (includes c SEPARATOR = false -> wordPart p = query /\ explanation p = c)
  /\ (includes c SEPARATOR = true ->
      exists a b, c = a ++ SEPARATOR ++ b
                  /\ wordPart p = trim a /\ explanation p = trim b).
Proof.
  intros p c.
  pose proof (parseLines_word (nonBlankLines raw) query) as W.
  destruct (splitWordLine_spec (firstLine (nonBlankLines raw)) query)
    as [Hno Hyes].
  fold c in Hno, Hyes. fold p in W. split.
  - intros H. rewrite (Hno H) in W. now injection W.
  - intros H. destruct (Hyes H) as (a & b & Hc & _ & Hs).
    exists a, b. rewrite Hs in W. injection W as W1 W2. now repeat split.
Qed.

(** X3: the translation and the idioms have no white space at either end
    and no emphasis markup; the definition has no emphasis markup; and the
    headword is either the query verbatim (no separator found) or a text
    with no white space at either end and no emphasis markup, in which
    case the definition is trimmed too. *)
Theorem X3_text_fields_clean (raw query : jsstring)
  (p : ParsedExplanation) :
  parsedContent raw query = Some p ->
  (trim (translation p) = translation p
   /\ includes (translation p) (lit "**") = false)
  /\ (trim (idioms p) = idioms p
      /\ includes (idioms p) (lit "**") = false)
  /\ includes (explanation p) (lit "**") = false
  /\ (wordPart p = query
      \/ (trim (wordPart p) = wordPart p
          /\ includes (wordPart p) (lit "**") = false
          /\ trim (explanation p) = explanation p)).
Proof.
  intros Hp. pose proof Hp as Hp0.
  apply parsedContent_some in Hp as [_ ->].
  destruct (parseLines_fields (nonBlankLines raw) query)
    as (_ & _ & _ & Ft & Fi & _).
  rewrite Ft, Fi.
  split; [apply fieldText_clean|]. split; [apply fieldText_clean|].
  destruct (headword_definition_split raw query) as [Hno Hyes].
  set (c := stripEmphasis (firstLine (nonBlankLines raw))) in *.
  pose proof (stripEmphasis_clean (firstLine (nonBlankLines raw))) as Hc.
  fold c in Hc.
  destruct (includes c SEPARATOR) eqn:Es.
  - destruct (Hyes eq_refl) as (a & b & Hab & Hw & He).
    rewrite Hw, He. rewrite Hab in Hc. split.
    + apply trim_clean.
      rewrite app_assoc in Hc.
      apply (includes_false_inside (a ++ SEPARATOR) b []).
      now rewrite app_nil_r.
    + right. split; [apply trim_idempotent|]. split.
      * apply trim_clean. exact (includes_false_inside [] a _ _ Hc).
      * apply trim_idempotent.
  - destruct (Hno eq_refl) as [Hw He]. rewrite He. split; [exact Hc|].
    now left.
Qed.

Lemma X3_text_fields_clean_witness :
  let p := parseLines (nonBlankLines Sample.boldWordRaw) Sample.ephemeral in
  parsedContent Sample.boldWordRaw Sample.ephemeral = Some p
  /\ wordPart p = lit "quick"
  /\ includes (wordPart p) (lit "**") = false
  /\ includes (explanation p) (lit "**") = false.
Proof.
  intros p.
  assert (Hp : parsedContent Sample.boldWordRaw Sample.ephemeral = Some p)
    by reflexivity.
  destruct (X3_text_fields_clean _ _ _ Hp) as (_ & _ & He & Hw).
  split; [exact Hp|]. split; [vm_compute; reflexivity|].
  split; [|exact He].
  destruct Hw as [Hw|(_ & Hw & _)]; [|exact Hw].
  vm_compute in Hw. discriminate.
Defined.

(** X4: every example of the parse is one of the non-blank lines of the
    text, taken whole: it begins with a digit and a period, contains no
    newline and none of the five markers, and there are no more examples
    than non-blank lines. *)
Theorem X4_examples_are_lines (raw query : jsstring)
  (p : ParsedExplanation) :
  parsedContent raw query = Some p ->
  (length (examples p) <= length (nonBlankLines raw))%nat
  /\ forall e, In e (examples p) ->
       In e (nonBlankLines raw)
       /\ (exists d rest, e = d :: 0x2E%N :: rest /\ isDigit d = true)
       /\ ~ In 0x0A%N e
       /\ markerBearing e = false
       /\ trim e <> [].
Proof.
  intros Hp. apply parsedContent_some in Hp as [_ ->].
  destruct (parseLines_fields (nonBlankLines raw) query)
    as (_ & _ & _ & _ & _ & Fe).
  rewrite Fe. split; [apply filter_length_le|].
  intros e He. apply filter_In in He as [Hin Hc].
  rewrite hasClass_Exm in Hc. apply andb_true_iff in Hc as [Hm Hx].
  split; [exact Hin|]. split; [|split; [|split]].
  - destruct e as [|d [|q rest]]; try discriminate.
    simpl in Hx. apply andb_true_iff in Hx as [Hd Hq].
    apply N.eqb_eq in Hq. subst q. now exists d, rest.
  - unfold nonBlankLines in Hin. apply filter_In in Hin as [Hin _].
    exact (split_piece_no_sep _ _ _ Hin).
  - now apply negb_true_iff in Hm.
  - unfold nonBlankLines in Hin. apply filter_In in Hin as [_ Hin].
    now apply truthy_true.
Qed.

Lemma X4_examples_are_lines_witness :
  parsedContent Sample.ephemeralRaw Sample.ephemeral
  = Some Sample.ephemeralParsed
  /\ In (lit "2. Fame in showbiz can be ephemeral.")
        (nonBlankLines Sample.ephemeralRaw)
  /\ ~ In 0x0A%N (lit "2. Fame in showbiz can be ephemeral.").
Proof.
  assert (Hp : parsedContent Sample.ephemeralRaw Sample.ephemeral
               = Some Sample.ephemeralParsed) by (vm_compute; reflexivity).
  destruct (X4_examples_are_lines _ _ _ Hp) as [_ H].
  destruct (H (lit "2. Fame in showbiz can be ephemeral."))
    as (Hin & _ & Hnl & _); [right; left; reflexivity|].
  repeat split; assumption.
Defined.

(** X5: the query reaches the headword only: the other seven fields of the
    parse do not depend on it; when the cleaned first line has a separator
    the whole parse does not depend on it, and when it has none the
    headword is whatever the query is. *)
Theorem X5_query_only_in_headword (raw query query' : jsstring)
  (p p' : ParsedExplanation) :
  parsedContent raw query = Some p ->
  parsedContent raw query' = Some p' ->
  let c := stripEmphasis (firstLine (nonBlankLines raw)) in
  (explanation p = explanation p' /\ pronunciation p = pronunciation p'
   /\ synonyms p = synonyms p' /\ antonyms p = antonyms p'
   /\ translation p = translation p' /\ idioms p = idioms p'
   /\ examples p = examples p')
  /\ (includes c SEPARATOR = true -> p = p')
  /\ (includes c SEPARATOR = false ->
      wordPart p = query /\ wordPart p' = query').
Proof.
  intros Hp Hp' c.
  apply parsedContent_some in Hp as [_ ->].
  apply parsedContent_some in Hp' as [_ ->].
  destruct (headword_definition_split raw query) as [Hno Hyes].
  destruct (headword_definition_split raw query') as [Hno' Hyes'].
  fold c in Hno, Hyes, Hno', Hyes'.
  assert (Hrest : forall w e w' e',
            splitWordLine (firstLine (nonBlankLines raw)) query = (w, e) ->
            splitWordLine (firstLine (nonBlankLines raw)) query' = (w', e') ->
            e = e' /\ (includes c SEPARATOR = true -> w = w')).
  { intros w e w' e' Hs Hs'.
    destruct (splitWordLine_spec (firstLine (nonBlankLines raw)) query)
      as [Sno Syes].
    destruct (splitWordLine_spec (firstLine (nonBlankLines raw)) query')
      as [Sno' Syes'].
    fold c in Sno, Syes, Sno', Syes'.
    destruct (includes c SEPARATOR) eqn:Es.
    - unfold splitWordLine in Hs, Hs'. fold c in Hs, Hs'.
      destruct (negb (indexOf c SEPARATOR =? -1)%Z) eqn:Ei.
      + injection Hs as <- <-. injection Hs' as <- <-. now split.
      + injection Hs as <- <-. injection Hs' as <- <-.
        split; [reflexivity|]. intros _.
        unfold indexOf in Ei.
        destruct (search c SEPARATOR) as [i|] eqn:Esr.
        * apply negb_false_iff, Z.eqb_eq in Ei. lia.
        * apply search_none in Esr. congruence.
    - rewrite (Sno eq_refl) in Hs. rewrite (Sno' eq_refl) in Hs'.
      injection Hs as <- <-. injection Hs' as <- <-.
      split; [reflexivity | discriminate]. }
  unfold parseLines.
  destruct (splitWordLine (firstLine (nonBlankLines raw)) query)
    as [w e] eqn:Hs.
  destruct (splitWordLine (firstLine (nonBlankLines raw)) query')
    as [w' e'] eqn:Hs'.
  destruct (Hrest w e w' e' eq_refl eq_refl) as [He Hw].
  simpl. subst e'. split; [repeat split|]. split.
  - intros H. now rewrite (Hw H).
  - intros H. unfold parseLines in Hno, Hno'. rewrite Hs in Hno.
    rewrite Hs' in Hno'. simpl in Hno, Hno'.
    split; [apply (Hno H) | apply (Hno' H)].
Qed.

Lemma X5_query_only_in_headword_witness :
  parsedContent Sample.ephemeralRaw Sample.ephemeral
  = Some Sample.ephemeralParsed
  /\ parsedContent Sample.ephemeralRaw (lit "fleeting")
     = Some Sample.ephemeralParsed
  /\ wordPart (parseLines (nonBlankLines Sample.plainRaw) (lit "fleeting"))
     = lit "fleeting".
Proof.
  assert (Hp : parsedContent Sample.ephemeralRaw Sample.ephemeral
               = Some Sample.ephemeralParsed) by (vm_compute; reflexivity).
  assert (Hq : parsedContent Sample.ephemeralRaw (lit "fleeting")
               = Some (parseLines (nonBlankLines Sample.ephemeralRaw)
                                  (lit "fleeting"))) by reflexivity.
  assert (Hr : parsedContent Sample.plainRaw (lit "fleeting")
               = Some (parseLines (nonBlankLines Sample.plainRaw)
                                  (lit "fleeting"))) by reflexivity.
  split; [exact Hp|]. split.
  - destruct (X5_query_only_in_headword _ _ _ _ _ Hp Hq) as (_ & Hsame & _).
    assert (Hinc : includes
                     (stripEmphasis
                        (firstLine (nonBlankLines Sample.ephemeralRaw)))
                     SEPARATOR = true) by (vm_compute; reflexivity).
    rewrite Hq. exact (f_equal Some (eq_sym (Hsame Hinc))).
  - destruct (X5_query_only_in_headword _ _ _ _ _ Hr Hr) as (_ & _ & Hno).
    apply Hno. vm_compute; reflexivity.
Defined.

Lemma nonBlankLines_blank (x : jsstring) :
  trim x = [] -> ~ In 0x0A%N x -> nonBlankLines x = [].
Proof.
  intros Ht Hnl. unfold nonBlankLines.
  rewrite (split_no_sep _ _ Hnl). simpl. now rewrite Ht.
Qed.

(** X6: a line of white space only, anywhere in the text (between two
    lines, before the first line or after the last), does not change the
    parse. *)
Theorem X6_blank_lines_ignored (a x b query : jsstring) :
  trim x = [] -> ~ In 0x0A%N x ->
  parsedContent (a ++ 0x0A%N :: x ++ 0x0A%N :: b) query
  = parsedContent (a ++ 0x0A%N :: b) query
  /\ (b <> [] ->
      parsedContent (x ++ 0x0A%N :: b) query = parsedContent b query)
  /\ (a <> [] ->
      parsedContent (a ++ 0x0A%N :: x) query = parsedContent a query).
Proof.
  intros Ht Hnl. pose proof (nonBlankLines_blank x Ht Hnl) as Hx.
  split; [|split].
  - unfold parsedContent.
    replace (truthy (a ++ 0x0A%N :: x ++ 0x0A%N :: b)) with true
      by (now destruct a).
    replace (truthy (a ++ 0x0A%N :: b)) with true by (now destruct a).
    simpl. now rewrite !nonBlankLines_app, Hx.
  - intros Hb. unfold parsedContent.
    replace (truthy (x ++ 0x0A%N :: b)) with true by (now destruct x).
    replace (truthy b) with true by (symmetry; now apply truthy_true).
    simpl. now rewrite nonBlankLines_app, Hx.
  - intros Ha. unfold parsedContent.
    replace (truthy (a ++ 0x0A%N :: x)) with true by (now destruct a).
    replace (truthy a) with true by (symmetry; now apply truthy_true).
    simpl. now rewrite nonBlankLines_app, Hx, app_nil_r.
Qed.

Lemma X6_blank_lines_ignored_witness :
  parsedContent (lit "quick - fast" ++ 0x0A%N :: lit "   "
                 ++ 0x0A%N :: lit "SYNONYMS: rapid") Sample.ephemeral
  = parsedContent (lit "quick - fast" ++ 0x0A%N :: lit "SYNONYMS: rapid")
                  Sample.ephemeral.
Proof.
  apply (X6_blank_lines_ignored (lit "quick - fast") (lit "   ")
           (lit "SYNONYMS: rapid") Sample.ephemeral).
  - vm_compute; reflexivity.
  - vm_compute. intros [H|[H|[H|[]]]]; discriminate.
Defined.

(** ** More on the explanation client *)

Lemma includes_suffix (a s pat : jsstring) :
  includes s pat = true -> includes (a ++ s) pat = true.
Proof.
  intros H. rewrite <- (app_nil_r s). now apply includes_inside.
Qed.

(** X7: the prompt carries the word verbatim twice, once between
    quotation marks and once in front of the separator the parser splits
    on, and it asks for each of the five markers the parser looks for,
    whatever the word is. *)
Theorem X7_prompt_asks_for_markers (word : jsstring) :
  (exists a b c,
     prompt word
     = a ++ [34%N] ++ word ++ [34%N] ++ b ++ word ++ SEPARATOR ++ c)
  /\ includes (prompt word) PRONUNCIATION = true
  /\ includes (prompt word) SYNONYMS = true
  /\ includes (prompt word) ANTONYMS = true
  /\ includes (prompt word) TRANSLATION = true
  /\ includes (prompt word) IDIOMS = true.
Proof.
  unfold prompt.
  match goal with
  | |- context [ (?a ++ [34%N] ++ word ++ [34%N] ++ ?b ++ word ++ ?t)%list ] =>
    set (A := a); set (B := b); set (T := t)
  end.
  split.
  - exists A, B, (skipn 3 T).
    replace (SEPARATOR ++ skipn 3 T) with T by (vm_compute; reflexivity).
    reflexivity.
  - assert (H : forall m, includes T m = true ->
                includes (A ++ [34%N] ++ word ++ [34%N] ++ B ++ word ++ T) m
                = true).
    { intros m Hm. rewrite !app_assoc. now apply includes_suffix. }
    repeat split; apply H; vm_compute; reflexivity.
Qed.

(** X8: what the client returns is never the empty string: a fetch that
    succeeds gives the text of the response, which is not empty, and the
    parser gives a record for it, whatever the query. *)
Theorem X8_fetched_text_parses (E : Type)
  (generateContent : jsstring -> Generated E) (word text : jsstring) :
  getGeminiExplanation generateContent word = inr text ->
  text <> []
  /\ generateContent (prompt word) = Response (Some text)
  /\ forall query, exists p, parsedContent text query = Some p.
Proof.
  unfold getGeminiExplanation.
  destruct (generateContent (prompt word)) as [e|[[|c t]|]]; simpl;
    try discriminate.
  intros H. injection H as <-.
  split; [discriminate|]. split; [reflexivity|].
  intros query. eexists. reflexivity.
Qed.

Lemma X8_fetched_text_parses_witness :
  getGeminiExplanation (E := unit)
    (fun _ => Response (Some Sample.ephemeralRaw)) Sample.ephemeral
  = inr Sample.ephemeralRaw
  /\ Sample.ephemeralRaw <> []
  /\ exists p, parsedContent Sample.ephemeralRaw Sample.ephemeral = Some p.
Proof.
  assert (H : getGeminiExplanation (E := unit)
                (fun _ => Response (Some Sample.ephemeralRaw))
                Sample.ephemeral
              = inr Sample.ephemeralRaw) by reflexivity.
  destruct (X8_fetched_text_parses unit _ _ _ H) as (Hne & _ & Hp).
  split; [exact H|]. split; [exact Hne|]. exact (Hp Sample.ephemeral).
Defined.

(** ** More on the lookup controller *)

(** X9: in every state the component reaches, of the cells and of the
    render alike, the fade follows the loading flag, while loading the
    error flag is down and no result is stored, and nothing is stored or
    flagged before the first accepted search; a fetch is in flight while
    the cells say loading, and every fetch in flight was started for a
    query that is not blank. When every submission of the run is handled
    by an up-to-date render, moreover, at most one fetch is in flight, one
    is exactly while loading, and the error flag is up only with no result
    stored. *)
Theorem X9_reachable_flags (E : Type) (evs : list (Event E)) :
  let sys := run start evs in
  (forall s, s = app sys \/ s = rendered sys ->
     fade s = isLoading s
     /\ (isLoading s = true -> error s = false /\ result s = [])
     /\ (hasSearched s = false ->
         result s = [] /\ error s = false /\ isLoading s = false
         /\ isTyping s = false))
  /\ (isLoading (app sys) = true -> outstanding sys <> [])
  /\ (forall q, In q (outstanding sys) -> trim q <> [])
  /\ (freshSubmits start evs ->
      (length (outstanding sys) <= 1)%nat
      /\ (isLoading (app sys) = true <-> length (outstanding sys) = 1%nat)
      /\ (error (app sys) = true -> result (app sys) = [])).
Proof.
  intros sys. destruct (run_tidy E evs) as (Qa & Qr & Hl & _ & Hq).
  fold sys in Qa, Qr, Hl, Hq.
  split; [intros s [->| ->]; assumption|].
  split; [exact Hl|]. split; [exact Hq|].
  intros Hf. destruct (run_orderly E evs Hf) as [Hc He].
  fold sys in Hc, He. unfold consistent in Hc.
  destruct (isLoading (app sys)).
  - destruct Hc as [[q ->] _]. simpl.
    split; [lia|]. split; [tauto | exact He].
  - rewrite Hc. simpl. split; [lia|]. split; [|exact He].
    split; discriminate.
Qed.

Lemma X9_reachable_flags_witness :
  freshSubmits start Sample.answered
  /\ outstanding (run start Sample.answered) = []
  /\ freshSubmits start Sample.typedAndSubmitted
  /\ length (outstanding (run start Sample.typedAndSubmitted)) = 1%nat.
Proof.
  assert (Hf : freshSubmits start Sample.typedAndSubmitted)
    by (simpl; repeat split).
  destruct (X9_reachable_flags unit Sample.typedAndSubmitted)
    as (_ & _ & _ & H).
  destruct (H Hf) as (_ & Hone & _).
  split; [simpl; repeat split|]. split; [reflexivity|].
  split; [exact Hf|]. apply Hone. reflexivity.
Defined.

(** X10: the flag that pins the layout is one-way: an accepted submission
    raises it, and from any state whatever, no sequence of events lowers
    it. *)
Theorem X10_hasSearched_one_way (E : Type) (sys : System)
  (evs : list (Event E)) :
  (snd (getWordExplanation (app sys)) <> None ->
   hasSearched (fst (getWordExplanation (app sys))) = true)
  /\ (hasSearched (app sys) = true ->
      hasSearched (app (run sys evs)) = true).
Proof.
  split.
  - unfold getWordExplanation.
    destruct (negb (truthy (trim (word (app sys)))) || isLoading (app sys));
      simpl; [congruence | reflexivity].
  - revert sys. induction evs as [|ev evs IH]; intros sys H; [exact H|].
    apply IH. destruct sys as [s r out]. simpl in *.
    destruct ev as [|value|i g| |]; simpl; try exact H.
    + destruct (closure_cases r s) as [Hc|(_ & _ & Hc)]; rewrite Hc;
        [exact H | reflexivity].
    + destruct (i <? length out)%nat; [|exact H].
      destruct (settle g); exact H.
Qed.

Lemma X10_hasSearched_one_way_witness :
  hasSearched (app (run start Sample.typedAndSubmitted)) = true
  /\ hasSearched (app (run start Sample.answered)) = true.
Proof.
  destruct (X10_hasSearched_one_way unit
              (run start Sample.typedAndSubmitted)
              [Commit; Settled 0 (Response (Some Sample.ephemeralRaw));
               Commit; TypingComplete; Commit]) as [_ H].
  split; [reflexivity|]. exact (H eq_refl).
Defined.

(** X11: when a fetch in flight succeeds, the text, which is not empty, is
    stored as the result and parses, the typing of the headword is armed,
    the loading flag is lowered, the error flag is left as it was, the
    result section is shown exactly if that flag is down, and one fetch
    fewer is in flight. When every submission of the run was handled by an
    up-to-date render, the component is then ready: the result section is
    shown, the error flag is down and no fetch is left in flight. *)
Theorem X11_success_path (E : Type) (evs : list (Event E)) (i : nat)
  (g : Generated E) (text : jsstring) :
  let sys := run start evs in
  (i < length (outstanding sys))%nat -> settle g = inr text ->
  let sys' := step sys (Settled i g) in
  text <> []
  /\ result (app sys') = text
  /\ currentParsed (app sys')
     = Some (parseLines (nonBlankLines text) (word (app sys)))
  /\ isTyping (app sys') = true
  /\ isLoading (app sys') = false
  /\ error (app sys') = error (app sys)
  /\ resultShown (app sys') = negb (error (app sys))
  /\ length (outstanding sys') = pred (length (outstanding sys))
  /\ (freshSubmits start evs ->
      phase (app sys') = Ready /\ resultShown (app sys') = true
      /\ error (app sys') = false /\ outstanding sys' = []).
Proof.
  intros sys Hi Hg sys'.
  assert (Hne : text <> []).
  { destruct g as [e|[[|c t]|]]; simpl in Hg; try discriminate.
    injection Hg as <-. discriminate. }
  assert (Hs : sys' = mkSystem (fetchResolved text (app sys)) (rendered sys)
                               (removeAt i (outstanding sys))).
  { subst sys'. unfold step.
    replace (i <? length (outstanding sys))%nat with true
      by (symmetry; now apply Nat.ltb_lt).
    now rewrite Hg. }
  rewrite Hs. unfold resultShown, currentParsed, phase, fetchResolved.
  simpl. destruct text as [|c t] eqn:Et; [contradiction|]. rewrite <- Et.
  assert (Hp : parsedContent text (word (app sys))
               = Some (parseLines (nonBlankLines text) (word (app sys))))
    by (now subst text).
  rewrite Hp.
  split; [subst text; discriminate|]. split; [reflexivity|].
  split; [reflexivity|]. split; [reflexivity|]. split; [reflexivity|].
  split; [reflexivity|]. split; [reflexivity|].
  split; [now apply length_removeAt|].
  intros Hf. destruct (run_orderly E evs Hf) as [Hc _].
  destruct (run_tidy E evs) as ((_ & Hl & _) & _).
  fold sys in Hc, Hl. unfold consistent in Hc.
  destruct (isLoading (app sys)) eqn:El;
    [|rewrite Hc in Hi; simpl in Hi; lia].
  destruct Hc as [[q Hq] _]. destruct (Hl eq_refl) as [He _].
  rewrite He, Hq. rewrite Hq in Hi. simpl in Hi.
  rewrite (removeAt_single _ i q Hi). subst text. simpl.
  repeat split.
Qed.

Lemma X11_success_path_witness :
  let sys' := run start Sample.answered in
  freshSubmits start (Sample.typedAndSubmitted ++ [Commit])
  /\ phase (app sys') = Ready
  /\ currentParsed (app sys') = Some Sample.ephemeralParsed
  /\ outstanding sys' = [].
Proof.
  intros sys'.
  assert (Hf : freshSubmits start (Sample.typedAndSubmitted ++ [Commit]))
    by (simpl; repeat split).
  destruct (X11_success_path unit (Sample.typedAndSubmitted ++ [Commit]) 0
              (Response (Some Sample.ephemeralRaw)) Sample.ephemeralRaw)
    as (_ & _ & _ & _ & _ & _ & _ & _ & H);
    [simpl; lia | reflexivity |].
  destruct (H Hf) as (Hph & _ & _ & Ho).
  split; [exact Hf|]. split; [exact Hph|]. split; [|exact Ho].
  vm_compute; reflexivity.
Defined.

Lemma quiet_shown (s : State) :
  quiet s ->
  (isLoading s = true ->
   resultShown s = false /\ errorShown s = false /\ hintShown s = false)
  /\ (isLoading s = false ->
      (resultShown s = true /\ errorShown s = false /\ hintShown s = false)
      \/ (resultShown s = false /\ errorShown s = true
          /\ hintShown s = false)
      \/ (resultShown s = false /\ errorShown s = false
          /\ hintShown s = true)).
Proof.
  intros (_ & Hl & _).
  unfold resultShown, errorShown, hintShown, currentParsed, parsedContent.
  split.
  - intros El. destruct (Hl El) as [He Hr].
    rewrite Hr, He, El. simpl. repeat split.
  - intros El. rewrite El. destruct (error s) eqn:He.
    + right. left. destruct (result s); simpl; repeat split.
    + destruct (result s) as [|c r]; simpl.
      * right. right. repeat split.
      * left. repeat split.
Qed.

(** X12: what the render shows. In every state the component reaches,
    nothing of result, error message and hint is shown while loading, and
    exactly one of the three is shown otherwise; and the same holds of the
    state of the last render, the one on screen. *)
Theorem X12_one_thing_shown (E : Type) (evs : list (Event E)) :
  (let s := app (run start evs) in
   (isLoading s = true ->
    resultShown s = false /\ errorShown s = false /\ hintShown s = false)
   /\ (isLoading s = false ->
       (resultShown s = true /\ errorShown s = false
        /\ hintShown s = false)
       \/ (resultShown s = false /\ errorShown s = true
           /\ hintShown s = false)
       \/ (resultShown s = false /\ errorShown s = false
           /\ hintShown s = true)))
  /\ (let s := rendered (run start evs) in
      (isLoading s = true ->
       resultShown s = false /\ errorShown s = false
       /\ hintShown s = false)
      /\ (isLoading s = false ->
          (resultShown s = true /\ errorShown s = false
           /\ hintShown s = false)
          \/ (resultShown s = false /\ errorShown s = true
              /\ hintShown s = false)
          \/ (resultShown s = false /\ errorShown s = false
              /\ hintShown s = true))).
Proof.
  destruct (run_tidy E evs) as (Qa & Qr & _).
  split; cbv zeta; now apply quiet_shown.
Qed.

(** X13: after a failed lookup, editing the input lowers the error flag
    and leaves the layout pinned; what is shown next is the hint when no
    result is stored and the stored result otherwise. When every
    submission of the run was handled by an up-to-date render, no result
    is stored and it is the hint. *)
Theorem X13_edit_after_failure (E : Type) (evs : list (Event E))
  (value : jsstring) :
  let sys := run start evs in
  phase (app sys) = Failed ->
  let s' := app (step (E := E) sys (InputChange value)) in
  errorShown s' = false /\ word s' = value /\ hasSearched s' = true
  /\ phase s' = (if truthy (result (app sys)) then Ready else Idle)
  /\ hintShown s' = negb (truthy (result (app sys)))
  /\ resultShown s' = truthy (result (app sys))
  /\ (freshSubmits start evs -> phase s' = Idle /\ hintShown s' = true).
Proof.
  intros sys Hph s'.
  destruct (run_tidy E evs) as ((_ & _ & Hhs) & _).
  fold sys in Hhs. unfold phase in Hph.
  destruct (isLoading (app sys)) eqn:El; [discriminate|].
  destruct (error (app sys)) eqn:He;
    [|destruct (truthy (result (app sys))); discriminate].
  assert (Hh : hasSearched (app sys) = true).
  { destruct (hasSearched (app sys)) eqn:Eh; [reflexivity|].
    destruct (Hhs eq_refl) as (_ & ? & _). discriminate. }
  subst s'.
  unfold phase, hintShown, errorShown, resultShown, currentParsed,
    parsedContent.
  simpl. rewrite El.
  split; [reflexivity|]. split; [reflexivity|]. split; [exact Hh|].
  split; [reflexivity|].
  split; [now destruct (truthy (result (app sys)))|].
  split; [now destruct (result (app sys))|].
  intros Hf. destruct (run_orderly E evs Hf) as [_ Hr].
  fold sys in Hr. rewrite (Hr He). simpl. now split.
Qed.

Lemma X13_edit_after_failure_witness :
  phase (app (run start Sample.failed)) = Failed
  /\ freshSubmits start Sample.failed
  /\ phase (app (run start (Sample.failed ++ [InputChange (lit "q")])))
     = Idle
  /\ phase (app (run start Sample.oneSucceedsOneFails)) = Failed
  /\ phase (app (run start (Sample.oneSucceedsOneFails
                            ++ [InputChange (lit "q")]))) = Ready.
Proof.
  assert (Hf : phase (app (run start Sample.failed)) = Failed)
    by reflexivity.
  assert (Hfresh : freshSubmits start Sample.failed)
    by (simpl; repeat split).
  assert (Hg : phase (app (run start Sample.oneSucceedsOneFails)) = Failed)
    by reflexivity.
  destruct (X13_edit_after_failure unit Sample.failed (lit "q") Hf)
    as (_ & _ & _ & _ & _ & _ & Hi).
  destruct (X13_edit_after_failure unit Sample.oneSucceedsOneFails
              (lit "q") Hg) as (_ & _ & _ & Hr & _).
  split; [exact Hf|]. split; [exact Hfresh|].
  rewrite !run_app. split; [exact (proj1 (Hi Hfresh))|].
  split; [exact Hg|]. etransitivity; [exact Hr | reflexivity].
Defined.

Lemma strictEq_eq (a b : jsstring) : strictEq a b = true <-> a = b.
Proof.
  revert b. induction a as [|x a IH]; intros [|y b]; simpl;
    try (split; [discriminate | discriminate]); [tauto|].
  rewrite andb_true_iff, N.eqb_eq, IH. split.
  - now intros [-> ->].
  - intros H. injection H as -> ->. now split.
Qed.

(** X14: a key press starts a fetch only if the key is Enter, and a
    submission is accepted only in a state where the search button is
    enabled; so whenever the button is disabled, Enter does nothing. The
    converse fails: with a word of white space only the button is enabled
    and the submission is still rejected. *)
Theorem X14_button_and_guard (key : jsstring) (s : State) :
  (snd (handleKeyPress key s) <> None ->
   key = lit "Enter" /\ searchDisabled s = false /\ trim (word s) <> [])
  /\ (searchDisabled s = true -> getWordExplanation s = (s, None))
  /\ (word s <> [] -> trim (word s) = [] -> isLoading s = false ->
      searchDisabled s = false /\ getWordExplanation s = (s, None)).
Proof.
  split; [|split].
  - unfold handleKeyPress, searchDisabled.
    destruct (strictEq key (lit "Enter")) eqn:Ek; [|simpl; congruence].
    apply strictEq_eq in Ek. unfold getWordExplanation.
    destruct (truthy (trim (word s))) eqn:Et; simpl; [|congruence].
    destruct (isLoading s); simpl; [congruence|]. intros _.
    split; [exact Ek|]. split; [|now apply truthy_true].
    destruct (word s); [discriminate Et | reflexivity].
  - unfold searchDisabled. intros H. apply guard_rejects.
    apply orb_true_iff in H as [H|H]; [right | now left].
    apply negb_true_iff, truthy_false in H. now rewrite H.
  - intros Hw Ht Hl. split; [|apply guard_rejects; now right].
    unfold searchDisabled. rewrite Hl.
    destruct (word s); [contradiction | reflexivity].
Qed.

Lemma X14_button_and_guard_witness :
  let s := handleInputChange (lit "  ") initial in
  searchDisabled s = false /\ getWordExplanation s = (s, None)
  /\ searchDisabled initial = true
  /\ handleKeyPress (lit "Enter") initial = (initial, None).
Proof.
  intros s.
  destruct (X14_button_and_guard (lit "Enter") s) as (_ & _ & H).
  destruct H as [Hd Hg];
    [vm_compute; discriminate | vm_compute; reflexivity | reflexivity |].
  destruct (X14_button_and_guard (lit "Enter") initial) as (_ & Hdis & _).
  split; [exact Hd|]. split; [exact Hg|]. split; [reflexivity|].
  unfold handleKeyPress.
  replace (strictEq (lit "Enter") (lit "Enter")) with true
    by (vm_compute; reflexivity).
  apply Hdis. reflexivity.
Defined.

Lemma parseLines_query (raw query query' : jsstring) :
  let c := stripEmphasis (firstLine (nonBlankLines raw)) in
  (includes c SEPARATOR = true ->
   parseLines (nonBlankLines raw) query
   = parseLines (nonBlankLines raw) query')
  /\ (includes c SEPARATOR = false ->
      wordPart (parseLines (nonBlankLines raw) query) = query
      /\ wordPart (parseLines (nonBlankLines raw) query') = query').
Proof.
  intros c.
  destruct (splitWordLine_spec (firstLine (nonBlankLines raw)) query)
    as [Sno Syes].
  destruct (splitWordLine_spec (firstLine (nonBlankLines raw)) query')
    as [Sno' Syes'].
  fold c in Sno, Syes, Sno', Syes'. split.
  - intros H. unfold parseLines.
    assert (Hs : splitWordLine (firstLine (nonBlankLines raw)) query
                 = splitWordLine (firstLine (nonBlankLines raw)) query').
    { unfold splitWordLine. fold c. unfold indexOf.
      destruct (search c SEPARATOR) as [i|] eqn:Esr.
      - replace (negb (Z.of_nat i =? -1)%Z) with true
          by (symmetry; apply negb_true_iff, Z.eqb_neq; lia).
        reflexivity.
      - apply search_none in Esr. congruence. }
    now rewrite Hs.
  - intros H.
    pose proof (parseLines_word (nonBlankLines raw) query) as W.
    pose proof (parseLines_word (nonBlankLines raw) query') as W'.
    rewrite (Sno H) in W. rewrite (Sno' H) in W'.
    injection W as W _. injection W' as W' _. now split.
Qed.

(** X15: the memo is recomputed when the input changes. When the cleaned
    first line of the stored result has a separator, editing the input
    leaves what is parsed as it is; when it has none, the headword shown
    follows the input, whatever was searched for. *)
Theorem X15_headword_follows_input (s : State) (value : jsstring) :
  result s <> [] ->
  let c := stripEmphasis (firstLine (nonBlankLines (result s))) in
  (includes c SEPARATOR = true ->
   currentParsed (handleInputChange value s) = currentParsed s)
  /\ (includes c SEPARATOR = false ->
      exists p, currentParsed (handleInputChange value s) = Some p
                /\ wordPart p = value).
Proof.
  intros Hr c. unfold currentParsed. simpl.
  assert (Hp : forall q, parsedContent (result s) q
                         = Some (parseLines (nonBlankLines (result s)) q))
    by (intros q; now apply parsedContent_some).
  destruct (parseLines_query (result s) value (word s)) as (Hsame & Hno).
  fold c in Hsame, Hno. split.
  - intros H. rewrite !Hp. f_equal. exact (Hsame H).
  - intros H. eexists. split; [apply Hp|]. exact (proj1 (Hno H)).
Qed.

Lemma X15_headword_follows_input_witness :
  let loose := fetchResolved Sample.plainRaw
                 (handleInputChange Sample.ephemeral initial) in
  (exists p, currentParsed (handleInputChange (lit "other") loose) = Some p
             /\ wordPart p = lit "other")
  /\ currentParsed (handleInputChange (lit "other")
                      (app (run start Sample.answered)))
     = Some Sample.ephemeralParsed.
Proof.
  intros loose. split.
  - destruct (X15_headword_follows_input loose (lit "other")) as [_ H];
      [vm_compute; discriminate|].
    apply H. vm_compute; reflexivity.
  - destruct (X15_headword_follows_input (app (run start Sample.answered))
                (lit "other")) as [H _]; [vm_compute; discriminate|].
    rewrite H; vm_compute; reflexivity.
Defined.

(** ** The typewriter *)

Section TypewriterFacts.

Import Typewriter.

Lemma firstn_snoc_nth (text : jsstring) (k : nat) (c : code_unit) :
  nth_error text k = Some c -> firstn k text ++ [c] = firstn (S k) text.
Proof.
  revert k. induction text as [|d text IH]; intros [|k]; simpl;
    try discriminate.
  - now intros [= ->].
  - intros H. now rewrite (IH k H).
Qed.

Lemma tick_prefix (text : jsstring) (k : nat) :
  (k <= length text)%nat ->
  tick text (mkTyping (firstn k text) k)
  = mkTyping (firstn (Nat.min (S k) (length text)) text)
             (Nat.min (S k) (length text)).
Proof.
  intros Hk. destruct (Nat.ltb_spec k (length text)) as [Hlt|Hge].
  - replace (Nat.min (S k) (length text)) with (S k) by lia.
    unfold tick, effect, callback. cbn [currentIndex displayText].
    replace (k <? length text)%nat with true
      by (symmetry; now apply Nat.ltb_lt).
    destruct (nth_error text k) as [c|] eqn:Ec.
    + now rewrite (firstn_snoc_nth _ _ _ Ec).
    + apply nth_error_None in Ec. lia.
  - assert (k = length text) by lia. subst k.
    replace (Nat.min (S (length text)) (length text))
      with (length text) by lia.
    unfold tick, effect. cbn [currentIndex displayText].
    rewrite Nat.ltb_irrefl, Nat.eqb_refl. reflexivity.
Qed.

Lemma ticks_prefix (text : jsstring) (n k : nat) :
  (k <= length text)%nat ->
  ticks n text (mkTyping (firstn k text) k)
  = mkTyping (firstn (Nat.min (k + n) (length text)) text)
             (Nat.min (k + n) (length text)).
Proof.
  revert k. induction n as [|n IH]; intros k Hk; simpl.
  - now replace (Nat.min (k + 0) (length text)) with k by lia.
  - rewrite (tick_prefix _ _ Hk), IH by lia.
    now replace (Nat.min (Nat.min (S k) (length text) + n) (length text))
      with (Nat.min (k + S n) (length text)) by lia.
Qed.

End TypewriterFacts.

(** X16: the typewriter shows a prefix of the text that grows by one code
    unit per timer period: after [n] periods from the reset it shows the
    first [n] code units (all of the text once [n] reaches its length);
    another timeout is scheduled exactly while [n] is below the length of
    the text, and the completion callback is due exactly from then on. *)
Theorem X16_typewriter_prefix (text : jsstring) (n : nat) :
  let t := Typewriter.ticks n text Typewriter.reset in
  Typewriter.displayText t = firstn n text
  /\ Typewriter.currentIndex t = Nat.min n (length text)
  /\ (Typewriter.effect text true t = Typewriter.Schedule
      <-> (n < length text)%nat)
  /\ (Typewriter.effect text true t = Typewriter.Complete
      <-> (length text <= n)%nat)
  /\ ((length text <= n)%nat -> Typewriter.displayText t = text).
Proof.
  intros t.
  assert (Ht : t = Typewriter.mkTyping
                     (firstn (Nat.min n (length text)) text)
                     (Nat.min n (length text))).
  { subst t. change Typewriter.reset
      with (Typewriter.mkTyping (firstn 0 text) 0).
    rewrite ticks_prefix by lia. reflexivity. }
  rewrite Ht. unfold Typewriter.effect. simpl.
  assert (Hd : firstn (Nat.min n (length text)) text = firstn n text).
  { destruct (Nat.le_ge_cases n (length text)) as [H|H].
    - now replace (Nat.min n (length text)) with n by lia.
    - replace (Nat.min n (length text)) with (length text) by lia.
      now rewrite !firstn_all2 by lia. }
  split; [exact Hd|]. split; [reflexivity|].
  destruct (Nat.ltb_spec (Nat.min n (length text)) (length text))
    as [Hlt|Hge].
  - split; [split; [intros _; lia | reflexivity]|].
    split.
    + destruct (Nat.eqb_spec (Nat.min n (length text)) (length text));
        [lia|]. simpl. split; [discriminate | lia].
    + intros H. lia.
  - split; [split; [|lia]|].
    + destruct (Nat.min n (length text) =? length text)%nat; discriminate.
    + split.
      * replace (Nat.min n (length text) =? length text)%nat with true
          by (symmetry; apply Nat.eqb_eq; lia).
        simpl. split; [intros _; lia | reflexivity].
      * intros H. rewrite Hd. apply firstn_all2. exact H.
Qed.

(** ** The rendered word lists *)

Section RenderFacts.

Lemma wordSpans_split (ws : list jsstring) (idx : nat) :
  ws <> [] -> (forall w, In w ws -> ~ In 0x2C%N w) ->
  split (wordSpans idx (idx + length ws) ws) 0x2C%N = ws.
Proof.
  revert idx. induction ws as [|w ws IH]; intros idx Hne Hc;
    [contradiction|].
  cbn [wordSpans length]. destruct ws as [|w2 rest].
  - replace (idx <? idx + S (length (@nil jsstring)) - 1)%nat with false
      by (symmetry; apply Nat.ltb_ge; simpl; lia).
    cbn [wordSpans]. rewrite !app_nil_r.
    apply split_no_sep, Hc. now left.
  - replace (idx <? idx + S (length (w2 :: rest)) - 1)%nat with true
      by (symmetry; apply Nat.ltb_lt; simpl; lia).
    rewrite <- app_assoc. cbn [List.app].
    rewrite split_app, (split_no_sep w) by (apply Hc; now left).
    replace (idx + S (length (w2 :: rest)))%nat
      with (S idx + length (w2 :: rest))%nat by lia.
    rewrite IH; [reflexivity | discriminate|].
    intros w' Hw'. apply Hc. now right.
Qed.

Lemma renderWords_split (ws : list jsstring) :
  ws <> [] -> (forall w, In w ws -> ~ In 0x2C%N w) ->
  split (renderWords ws) 0x2C%N = ws.
Proof. intros Hne Hc. exact (wordSpans_split ws 0 Hne Hc). Qed.

Lemma filter_all (A : Type) (f : A -> bool) (l : list A) :
  (forall x, In x l -> f x = true) -> filter f l = l.
Proof.
  induction l as [|x l IH]; intros H; simpl; [reflexivity|].
  rewrite (H x (or_introl eq_refl)). f_equal. apply IH.
  intros y Hy. apply H. now right.
Qed.

Lemma map_fixed (A : Type) (f : A -> A) (l : list A) :
  (forall x, In x l -> f x = x) -> map f l = l.
Proof.
  induction l as [|x l IH]; intros H; simpl; [reflexivity|].
  rewrite (H x (or_introl eq_refl)). f_equal. apply IH.
  intros y Hy. apply H. now right.
Qed.

End RenderFacts.

Lemma parsed_word_entry (raw query : jsstring) (p : ParsedExplanation)
  (e : jsstring) :
  parsedContent raw query = Some p ->
  In e (synonyms p) \/ In e (antonyms p) ->
  e <> [] /\ trim e = e
  /\ isWhiteSpace (hd 0%N e) = false /\ isWhiteSpace (last e 0%N) = false
  /\ ~ In 0x2C%N e /\ includes e (lit "**") = false.
Proof.
  intros Hp He. apply parsedContent_some in Hp as [_ ->].
  destruct (parseLines_fields (nonBlankLines raw) query)
    as (_ & Fs & Fa & _).
  rewrite Fs, Fa in He.
  destruct He as [He|He]; exact (wordList_entry _ _ _ He).
Qed.

(** X17: the synonyms and the antonyms survive their rendering: the text
    of the spans, the words with a comma after each but the last, split on
    commas, trimmed and cleared of empty entries as the parser does, is the
    list of words again. *)
Theorem X17_rendered_words_round_trip (raw query : jsstring)
  (p : ParsedExplanation) :
  parsedContent raw query = Some p ->
  filter truthy (map trim (split (renderWords (synonyms p)) 0x2C%N))
  = synonyms p
  /\ filter truthy (map trim (split (renderWords (antonyms p)) 0x2C%N))
     = antonyms p.
Proof.
  intros Hp.
  assert (H : forall ws,
            (forall e, In e ws -> In e (synonyms p) \/ In e (antonyms p)) ->
            filter truthy (map trim (split (renderWords ws) 0x2C%N)) = ws).
  { intros ws Hws. destruct ws as [|w ws]; [reflexivity|].
    rewrite renderWords_split; [|discriminate|].
    - rewrite map_fixed, filter_all; [reflexivity| |].
      + intros e He.
        destruct (parsed_word_entry raw query p e Hp (Hws e He))
          as (Hne & _).
        now apply truthy_true.
      + intros e He.
        now destruct (parsed_word_entry raw query p e Hp (Hws e He))
          as (_ & Ht & _).
    - intros e He.
      now destruct (parsed_word_entry raw query p e Hp (Hws e He))
        as (_ & _ & _ & _ & Hc & _). }
  split; apply H; intros e He; [now left | now right].
Qed.

Lemma X17_rendered_words_round_trip_witness :
  parsedContent Sample.ephemeralRaw Sample.ephemeral
  = Some Sample.ephemeralParsed
  /\ renderWords (synonyms Sample.ephemeralParsed)
     = lit "fleeting,transient,momentary"
  /\ filter truthy
       (map trim (split (lit "fleeting,transient,momentary") 0x2C%N))
     = synonyms Sample.ephemeralParsed.
Proof.
  assert (Hp : parsedContent Sample.ephemeralRaw Sample.ephemeral
               = Some Sample.ephemeralParsed) by (vm_compute; reflexivity).
  assert (Hr : renderWords (synonyms Sample.ephemeralParsed)
               = lit "fleeting,transient,momentary")
    by (vm_compute; reflexivity).
  destruct (X17_rendered_words_round_trip _ _ _ Hp) as [Hs _].
  split; [exact Hp|]. split; [exact Hr|]. rewrite <- Hr. exact Hs.
Defined.

(** X18: nothing but a fetch settling ends the loading: from any state
    in which the cells and the render both show loading, whatever is
    typed, submitted, completed or rendered in the meantime, the component
    is still loading, cells and render, with the same fetches in flight and
    the same result stored. *)
Theorem X18_loading_until_settled (E : Type) (sys : System)
  (evs : list (Event E)) :
  isLoading (app sys) = true ->
  isLoading (rendered sys) = true ->
  Forall (fun ev => isSettled ev = false) evs ->
  isLoading (app (run sys evs)) = true
  /\ isLoading (rendered (run sys evs)) = true
  /\ outstanding (run sys evs) = outstanding sys
  /\ result (app (run sys evs)) = result (app sys).
Proof.
  revert sys. induction evs as [|ev evs IH]; intros sys Hl Hr Hev.
  - now repeat split.
  - inversion Hev as [|? ? H1 H2]; subst.
    assert (Hstep : isLoading (app (step sys ev)) = true
                    /\ isLoading (rendered (step sys ev)) = true
                    /\ outstanding (step sys ev) = outstanding sys
                    /\ result (app (step sys ev)) = result (app sys)).
    { destruct sys as [s r out]. simpl in Hl, Hr.
      destruct ev as [|value|i g| |]; simpl in *; try discriminate.
      - rewrite (closure_rejects r s (or_introl Hr)). simpl.
        now rewrite app_nil_r.
      - now repeat split.
      - now repeat split.
      - now repeat split. }
    destruct Hstep as (Sl & Sr & So & Sres).
    destruct (IH (step sys ev) Sl Sr H2) as (Il & Ir & Io & Ires).
    change (run sys (ev :: evs)) with (run (step sys ev) evs).
    rewrite Il, Ir, Io, Ires, So, Sres. now repeat split.
Qed.

Lemma X18_loading_until_settled_witness :
  let sys := run start (Sample.typedAndSubmitted ++ [Commit]) in
  let evs : list (Event unit) :=
    [InputChange (lit "other"); Commit; Submit; TypingComplete; Submit] in
  isLoading (app (run sys evs)) = true
  /\ outstanding (run sys evs) = [Sample.ephemeral].
Proof.
  intros sys evs.
  destruct (X18_loading_until_settled unit sys evs) as (Hl & _ & Ho & _).
  - reflexivity.
  - reflexivity.
  - repeat constructor.
  - split; [exact Hl|]. rewrite Ho. reflexivity.
Defined.
